(** * png_to_c.py: a binary file rendered as a C byte-array header

    A shallow embedding of [src/png_to_c.py] and the properties of the text
    it emits.  The script reads a file in full, derives three names from the
    asset name, and writes an include-guarded C declaration of the bytes,
    sixteen values to a row.

    Conventions of the embedding:
    - Python [int] is [Z]; [bytes] is [list byte]; [str] is [string], one
      [ascii] per character (asset names are modelled over this 8-bit
      alphabet; the case maps are those of [str.upper] and [str.lower] on
      ASCII names, and statements on the case of letters are made for ASCII
      names);
    - a text file has an [encoding]: the bytes written for each character,
      the line feed included (the newline convention), or none when the
      character cannot be encoded;
    - the open output file is a [textfile]: the bytes delivered so far, the
      room left on the device and the encoding; [f.write] encodes its text
      and appends the bytes; it raises [UnicodeEncodeError] when a character
      cannot be encoded, and [OSError] when the room is used up, keeping the
      bytes that fitted;
    - the statements under [with open(h_file, 'w') as f:] run in the monad
      [IO], state ([textfile]) plus exceptions;
    - the process runs against a [world] of regular files: the files, the
      file each path names, permissions, devices, the text encoding of the
      platform, the two standard streams, and what the interpreter reports
      for an exception nobody caught. *)

From Stdlib Require Import ZArith NArith Lia List Ascii String Strings.Byte.
From stdpp Require Import gmap strings list.

Open Scope Z_scope.

(** ** Characters and strings *)

(** The line feed written by ['\n']. *)
Definition LF : string := String "010"%char EmptyString.

(** *** [str.upper], [str.lower] on the modelled alphabet *)

Definition is_lower_letter (c : ascii) : bool :=
  let n := N_of_ascii c in ((97 <=? n) && (n <=? 122))%N.

Definition is_upper_letter (c : ascii) : bool :=
  let n := N_of_ascii c in ((65 <=? n) && (n <=? 90))%N.

Definition upper_char (c : ascii) : ascii :=
  if is_lower_letter c then ascii_of_N (N_of_ascii c - 32) else c.

Definition lower_char (c : ascii) : ascii :=
  if is_upper_letter c then ascii_of_N (N_of_ascii c + 32) else c.

Fixpoint map_chars (f : ascii -> ascii) (s : string) : string :=
  match s with
  | EmptyString => EmptyString
  | String c s' => String (f c) (map_chars f s')
  end.

(** [asset_name.upper()] *)
Definition upper (s : string) : string := map_chars upper_char s.

(** [asset_name.lower()] *)
Definition lower (s : string) : string := map_chars lower_char s.

(** ** The format specification [02X] *)

(** One uppercase hexadecimal digit, for [0 <= d < 16]. *)
Definition hex_digit_upper (d : N) : ascii :=
  if (d <? 10)%N then ascii_of_N (48 + d) else ascii_of_N (55 + d).

(** The digits of [n] in base sixteen, most significant first. *)
Fixpoint hex_upper_go (fuel : nat) (n : N) (acc : string) : string :=
  match fuel with
  | O => acc
  | S fuel' =>
      let acc' := String (hex_digit_upper (n mod 16)) acc in
      if (n / 16 =? 0)%N then acc' else hex_upper_go fuel' (n / 16) acc'
  end.

Definition hex_upper (n : N) : string :=
  hex_upper_go (S (N.size_nat n)) n EmptyString.

Fixpoint zeros (k : nat) : string :=
  match k with
  | O => EmptyString
  | S k' => String "0"%char (zeros k')
  end.

(** Zero fill on the left up to a minimal width. *)
Definition zero_pad (width : nat) (s : string) : string :=
  zeros (width - String.length s) +:+ s.

(** [format(n, '02X')]: uppercase hexadecimal, zero-filled to width 2; a
    negative number keeps its sign in front of the fill. *)
Definition format_02X (n : Z) : string :=
  if n <? 0 then "-" +:+ zero_pad 1 (hex_upper (Z.to_N (- n)))
  else zero_pad 2 (hex_upper (Z.to_N n)).

(** ** The output file and the monad of the [with] block *)

Inductive exn : Type := OSError | IndexError | UnicodeEncodeError.

Inductive result (A : Type) : Type :=
| Ok (a : A)
| Raise (e : exn).
Arguments Ok {A} a.
Arguments Raise {A} e.

(** A text encoding together with its newline convention: the bytes written
    for a character, or [None] when the character cannot be encoded. *)
Definition encoding : Type := ascii -> option (list byte).

(** [s.encode(...)], after the translation of line feeds: the bytes of all
    characters, or [None] when one of them cannot be encoded. *)
Fixpoint encode_text (enc : encoding) (s : string) : option (list byte) :=
  match s with
  | EmptyString => Some []
  | String c s' =>
      match enc c, encode_text enc s' with
      | Some bs, Some rest => Some (bs ++ rest)
      | _, _ => None
      end
  end.

(** One byte per character, the line feed as it is. *)
Definition latin1 : encoding := fun c => Some [byte_of_ascii c].

(** An open text file: the bytes delivered to the device, how many more
    bytes the device takes ([None]: no limit), and the encoding. *)
Record textfile : Type :=
  TextFile { output : list byte; room : option nat; codec : encoding }.

Definition IO (A : Type) : Type := textfile -> result A * textfile.

Definition io_ret {A : Type} (a : A) : IO A := fun f => (Ok a, f).

Definition io_bind {A B : Type} (m : IO A) (k : A -> IO B) : IO B :=
  fun f =>
    match m f with
    | (Ok a, f') => k a f'
    | (Raise e, f') => (Raise e, f')
    end.

Definition raise {A : Type} (e : exn) : IO A := fun f => (Raise e, f).

#[global] Instance io_mret : MRet IO := @io_ret.
#[global] Instance io_mbind : MBind IO := fun A B k m => io_bind m k.

(** [if b: m], without an [else]. *)
Definition when (b : bool) (m : IO unit) : IO unit :=
  if b then m else mret tt.

(** [f.write(s)]: the text is encoded, which raises [UnicodeEncodeError]
    when a character cannot be, and the bytes are appended; when the device
    has room for fewer bytes, those that fit are kept and [OSError] is
    raised. *)
Definition write (s : string) : IO unit :=
  fun f =>
    match encode_text (codec f) s with
    | None => (Raise UnicodeEncodeError, f)
    | Some bs =>
        match room f with
        | None => (Ok tt, TextFile (output f ++ bs) None (codec f))
        | Some k =>
            if (length bs <=? k)%nat
            then (Ok tt, TextFile (output f ++ bs)
                                  (Some (k - length bs)%nat) (codec f))
            else (Raise OSError,
                  TextFile (output f ++ take k bs) (Some O) (codec f))
        end
    end.

(** [len(data)] *)
Definition len (data : list byte) : Z := Z.of_nat (length data).

(** [data[i]] on [bytes]: an [int] in [0, 255]; a negative index counts from
    the end; out of range raises [IndexError]. *)
Definition getitem (data : list byte) (i : Z) : IO Z :=
  let j := if i <? 0 then i + len data else i in
  if (0 <=? j) && (j <? len data) then
    match data !! Z.to_nat j with
    | Some b => mret (Z.of_N (Byte.to_N b))
    | None => raise IndexError
    end
  else raise IndexError.

(** [for i in range(n): body(i)], counting up from [i]. *)
Fixpoint for_from (i : Z) (count : nat) (body : Z -> IO unit) : IO unit :=
  match count with
  | O => mret tt
  | S count' => body i ;; for_from (i + 1) count' body
  end.

Definition for_in_range (n : Z) (body : Z -> IO unit) : IO unit :=
  for_from 0 (Z.to_nat n) body.

(** ** The statements of the script *)

Section Emitter.

Variable data : list byte.
Variable asset_name : string.

Definition upper_name : string := upper asset_name.
Definition var_name : string := lower asset_name.
Definition len_name : string := lower asset_name +:+ "_len".

(** Lines 22-24: the include guard and the opening of the array. *)
Definition write_prologue : IO unit :=
  write ("#ifndef " +:+ upper_name +:+ "_H" +:+ LF) ;;
  write ("#define " +:+ upper_name +:+ "_H" +:+ LF +:+ LF) ;;
  write ("unsigned char " +:+ var_name +:+ "[] = {" +:+ LF).

(** Lines 27-35: the body of the [for] loop. *)
Definition loop_body (i : Z) : IO unit :=
  when (i mod 16 =? 0) (write "    ") ;;
  v ← getitem data i;
  write ("0x" +:+ format_02X v) ;;
  when (i <? len data - 1) (write ",") ;;
  if i mod 16 =? 15 then write LF else write " ".

(** Lines 26-35: the loop. *)
Definition write_loop : IO unit :=
  for_in_range (len data) loop_body.

(** Lines 26-37: the loop and the guard after it. *)
Definition write_array_body : IO unit :=
  write_loop ;;
  when (negb (len data mod 16 =? 0)) (write LF).

(** Line 39: the closing of the array, the length and the end of the guard. *)
Definition write_epilogue : IO unit :=
  write ("};" +:+ LF +:+ "unsigned int " +:+ len_name +:+ " = sizeof("
         +:+ var_name +:+ ");" +:+ LF +:+ LF +:+ "#endif" +:+ LF).

(** Lines 22-39: everything under [with open(h_file, 'w') as f:]. *)
Definition write_document : IO unit :=
  write_prologue ;; write_array_body ;; write_epilogue.

End Emitter.

(** A fresh file on a device without limit, one byte per character. *)
Definition fresh : textfile := TextFile [] None latin1.

(** What a block writes into a fresh file on a device without limit, read
    as text again, one character per byte. *)
Definition text_of (m : IO unit) : string :=
  string_of_list_byte (output (snd (m fresh))).

(** The text of the whole header, and of its array body alone. *)
Definition emitted (data : list byte) (asset_name : string) : string :=
  text_of (write_document data asset_name).

Definition array_body (data : list byte) : string :=
  text_of (write_array_body data).

Definition loop_text (data : list byte) : string :=
  text_of (write_loop data).

(** ** The pure text of the array body

    The characters one round of the loop writes for the byte at index [i] of
    an input of length [n], in the order of the statements. *)

Definition indent_of (i : Z) : string :=
  if i mod 16 =? 0 then "    " else "".

Definition comma_of (n i : Z) : string :=
  if i <? n - 1 then "," else "".

Definition line_end_of (i : Z) : string :=
  if i mod 16 =? 15 then LF else " ".

Definition value_of (b : byte) : string :=
  "0x" +:+ format_02X (Z.of_N (Byte.to_N b)).

Definition item (n i : Z) (b : byte) : string :=
  indent_of i +:+ value_of b +:+ comma_of n i +:+ line_end_of i.

(** The items of the bytes [l], the first of them at index [i]. *)
Fixpoint items (n i : Z) (l : list byte) : string :=
  match l with
  | [] => ""
  | b :: l' => item n i b +:+ items n (i + 1) l'
  end.

Definition ragged_end (n : Z) : string :=
  if negb (n mod 16 =? 0) then LF else "".

(** The fixed text before and after the array body. *)
Definition prologue (asset_name : string) : string :=
  ("#ifndef " +:+ upper_name asset_name +:+ "_H" +:+ LF) +:+
  ("#define " +:+ upper_name asset_name +:+ "_H" +:+ LF +:+ LF) +:+
  ("unsigned char " +:+ var_name asset_name +:+ "[] = {" +:+ LF).

Definition epilogue (asset_name : string) : string :=
  "};" +:+ LF +:+ "unsigned int " +:+ len_name asset_name +:+ " = sizeof("
  +:+ var_name asset_name +:+ ");" +:+ LF +:+ LF +:+ "#endif" +:+ LF.


(** ** Blocks that behave as one write *)

(** The whole header as one text. *)
Definition header_text (data : list byte) (asset_name : string) : string :=
  prologue asset_name +:+
  (items (len data) 0 data +:+ ragged_end (len data)) +:+
  epilogue asset_name.

(** On a file that can encode [s], [m] accepts, fails and leaves the file
    exactly as [f.write(s)] would; on a file that cannot, [m] raises, and not
    an [IndexError]. *)
Definition writes (m : IO unit) (s : string) : Prop :=
  forall f : textfile,
    match encode_text (codec f) s with
    | Some _ => m f = write s f
    | None => exists e f', m f = (Raise e, f') /\ e <> IndexError
    end.

(** ** Reading the values back

    A reader of the array body: wherever the text shows [0x] and two
    hexadecimal digits, the byte they denote is taken and reading goes on
    after them; any other character is passed over. *)

Definition hex_value (c : ascii) : option N :=
  let n := N_of_ascii c in
  if ((48 <=? n) && (n <=? 57))%N then Some (n - 48)%N
  else if ((65 <=? n) && (n <=? 70))%N then Some (n - 55)%N
  else if ((97 <=? n) && (n <=? 102))%N then Some (n - 87)%N
  else None.

Definition hex_byte (h l : ascii) : option byte :=
  match hex_value h, hex_value l with
  | Some a, Some b => Byte.of_N (16 * a + b)
  | _, _ => None
  end.

Fixpoint parse_hex_bytes (s : string) : list byte :=
  match s with
  | EmptyString => []
  | String c s' =>
      match s' with
      | String x (String h (String l rest)) =>
          if Ascii.eqb c "0" && Ascii.eqb x "x" then
            match hex_byte h l with
            | Some b => b :: parse_hex_bytes rest
            | None => parse_hex_bytes s'
            end
          else parse_hex_bytes s'
      | _ => parse_hex_bytes s'
      end
  end.

(** ** Lines of a text *)

Definition is_LF (c : ascii) : bool := Ascii.eqb c "010".

(** The lines of [s], cut at each line feed (which is dropped); [cur] is the
    line being read.  Characters after the last line feed form a last line. *)
Fixpoint lines_from (cur s : string) : list string :=
  match s with
  | EmptyString => match cur with EmptyString => [] | _ => [cur] end
  | String c s' =>
      if is_LF c then cur :: lines_from "" s'
      else lines_from (cur +:+ String c "") s'
  end.

Definition lines (s : string) : list string := lines_from "" s.

Fixpoint no_LF (s : string) : bool :=
  match s with
  | EmptyString => true
  | String c s' => negb (is_LF c) && no_LF s'
  end.

(** The lines put back together, each closed by a line feed. *)
Fixpoint unlines (ls : list string) : string :=
  match ls with
  | [] => ""
  | r :: ls' => r +:+ LF +:+ unlines ls'
  end.

(** [s.startswith(p)] *)
Fixpoint starts_with (p s : string) : bool :=
  match p with
  | EmptyString => true
  | String c p' =>
      match s with
      | EmptyString => false
      | String c' s' => Ascii.eqb c c' && starts_with p' s'
      end
  end.

(** A data line: the indentation, then a value. *)
Definition data_line (r : string) : bool := starts_with "    0x" r.

(** [needle in hay] *)
Fixpoint occurs_in (needle hay : string) : bool :=
  starts_with needle hay ||
  match hay with
  | EmptyString => false
  | String _ hay' => occurs_in needle hay'
  end.

(** ** The process and its world *)

(** What the script can observe and change: the regular files, each under
    one name; the file a path names ([resolve], so that two paths may name
    one file); whether a path may be opened for reading; whether it may be
    opened for writing and with how much room ([device w p = None]: it may
    not); the encoding and newline convention of text files on the platform;
    what the interpreter prints, after the first line of a traceback, for an
    exception nobody caught; and the two standard streams. *)
Record world : Type := World {
  files : gmap string (list byte);
  resolve : string -> string;
  may_read : string -> bool;
  device : string -> option (option nat);
  text_encoding : encoding;
  report : exn -> string;
  stdout : string;
  stderr : string
}.

Definition set_files (fs : gmap string (list byte)) (w : world) : world :=
  World fs (resolve w) (may_read w) (device w) (text_encoding w) (report w)
        (stdout w) (stderr w).

Definition set_stdout (s : string) (w : world) : world :=
  World (files w) (resolve w) (may_read w) (device w) (text_encoding w)
        (report w) s (stderr w).

Definition set_stderr (s : string) (w : world) : world :=
  World (files w) (resolve w) (may_read w) (device w) (text_encoding w)
        (report w) (stdout w) s.

(** How a run ends: [sys.exit(code)], falling off the end of the script
    ([Exit 0]), or an exception nobody caught. *)
Inductive outcome : Type :=
| Exit (code : Z)
| Uncaught (e : exn).

(** The exit status the interpreter reports. *)
Definition exit_status (o : outcome) : Z :=
  match o with
  | Exit code => code
  | Uncaught _ => 1
  end.

(** [print(s)]: the text and a line feed, on standard output. *)
Definition print (s : string) (w : world) : world :=
  set_stdout (stdout w +:+ s +:+ LF) w.

(** What the interpreter prints on the error stream for an exception nobody
    caught. *)
Definition traceback (w : world) (e : exn) : string :=
  "Traceback (most recent call last):" +:+ LF +:+ report w e.

(** The run ends in the exception [e], nobody having caught it. *)
Definition uncaught (e : exn) (w : world) : outcome * world :=
  (Uncaught e, set_stderr (stderr w +:+ traceback w e) w).

(** [with open(path, 'rb') as f: f.read()] *)
Definition read_file (w : world) (path : string) : result (list byte) :=
  match files w !! resolve w path with
  | Some content => if may_read w path then Ok content else Raise OSError
  | None => Raise OSError
  end.

(** [open(path, 'w')]: a new, empty text file on the device of the path, in
    the encoding of the platform. *)
Definition open_w (w : world) (path : string) : result textfile :=
  match device w path with
  | Some r => Ok (TextFile [] r (text_encoding w))
  | None => Raise OSError
  end.

(** Leaving the [with] block, normally or not: the file the path names holds
    the bytes delivered. *)
Definition close (path : string) (f : textfile) (w : world) : world :=
  set_files (<[resolve w path := output f]> (files w)) w.

Definition usage : string :=
  "Usage: python3 png_to_c.py <png_file> <output_h_file> <asset_name>".

(** The script, run with [sys.argv = argv] in the world [w]. *)
Definition main (argv : list string) (w : world) : outcome * world :=
  if negb (Z.of_nat (length argv) =? 4) then (Exit 1, print usage w)
  else
    match argv with
    | [_; png_file; h_file; asset_name] =>
        match read_file w png_file with
        | Raise e => uncaught e w
        | Ok data =>
            match open_w w h_file with
            | Raise e => uncaught e w
            | Ok f =>
                let (r, f') := write_document data asset_name f in
                match r with
                | Ok _ => (Exit 0, close h_file f' w)
                | Raise e => uncaught e (close h_file f' w)
                end
            end
        end
    | _ => uncaught IndexError w
    end.

(** The input path can be opened and read. *)
Definition can_read (w : world) (path : string) : bool :=
  match files w !! resolve w path with
  | Some _ => may_read w path
  | None => false
  end.

(** The output path can be created and takes [n] bytes. *)
Definition can_write (w : world) (path : string) (n : nat) : bool :=
  match device w path with
  | None => false
  | Some None => true
  | Some (Some k) => (n <=? k)%nat
  end.

(** A world with no file, where nothing may be opened. *)
Definition empty_world : world :=
  World ∅ (fun p => p) (fun _ => false) (fun _ => None) latin1
        (fun _ => "") "" "".

(** Two worlds that differ in everything but the bytes of the input file and
    the text encoding. *)
Definition world_a : world :=
  World {[ "logo.png" := [x89; x50; x4e; x47] ]}
        (fun p => p) (fun _ => true) (fun _ => Some None) latin1
        (fun _ => "OSError") "" "".

Definition world_b : world :=
  World {[ "in/img.bin" := [x89; x50; x4e; x47]; "notes.txt" := [x68; x69] ]}
        (fun p => p) (fun _ => true) (fun _ => Some (Some 4096%nat)) latin1
        (fun _ => "") "earlier output" "".

(** The line feed written as carriage return and line feed. *)
Definition crlf : encoding :=
  fun c => if Ascii.eqb c "010" then Some [x0d; x0a]
           else Some [byte_of_ascii c].

(** The characters below 128 only. *)
Definition ascii_only : encoding :=
  fun c => if (N_of_ascii c <? 128)%N then Some [byte_of_ascii c] else None.

(** [world_a] on a platform that writes line feeds as carriage return and
    line feed. *)
Definition world_crlf : world :=
  World {[ "logo.png" := [x89; x50; x4e; x47] ]}
        (fun p => p) (fun _ => true) (fun _ => Some None) crlf
        (fun _ => "OSError") "" "".

(** [world_a] with an output device that takes ten bytes. *)
Definition world_small : world :=
  World {[ "logo.png" := [x89; x50; x4e; x47] ]}
        (fun p => p) (fun _ => true) (fun _ => Some (Some 10%nat)) latin1
        (fun _ => "OSError") "" "".

(** [world_a] on a platform whose text files are ASCII. *)
Definition world_ascii : world :=
  World {[ "logo.png" := [x89; x50; x4e; x47] ]}
        (fun p => p) (fun _ => true) (fun _ => Some None) ascii_only
        (fun _ => "UnicodeEncodeError") "" "".

(** An asset name of one character that is not ASCII. *)
Definition name_not_ascii : string := String "255"%char EmptyString.

(** ** Measures of a text *)

(** Every character of [s] passes the test [P]. *)
Fixpoint all_chars (P : ascii -> bool) (s : string) : bool :=
  match s with
  | EmptyString => true
  | String c s' => P c && all_chars P s'
  end.

(** [c in s] *)
Fixpoint char_in (c : ascii) (s : string) : bool :=
  match s with
  | EmptyString => false
  | String c' s' => Ascii.eqb c c' || char_in c s'
  end.

(** [s.count(c)] *)
Fixpoint count_char (c : ascii) (s : string) : nat :=
  match s with
  | EmptyString => O
  | String c' s' => ((if Ascii.eqb c c' then 1 else 0) + count_char c s')%nat
  end.

(** The characters an array body is made of. *)
Definition body_alphabet : string := " ,0123456789ABCDEFx" +:+ LF.

Definition is_zero_char (c : ascii) : bool := Ascii.eqb c "0".

(** [s.isascii()] *)
Definition is_ascii (s : string) : bool :=
  all_chars (fun c => (N_of_ascii c <? 128)%N) s.

(** ** Rows of sixteen *)

(** The bytes [l] put after the bytes [acc] of an open row, a row being
    closed when it holds sixteen. *)
Fixpoint rows_from (acc l : list byte) : list (list byte) :=
  match l with
  | [] => match acc with [] => [] | _ => [acc] end
  | b :: l' =>
      if (length (acc ++ [b]) =? 16)%nat then (acc ++ [b]) :: rows_from [] l'
      else rows_from (acc ++ [b]) l'
  end.

Definition rows (data : list byte) : list (list byte) := rows_from [] data.

(** * Lemmas *)

(** Goals on [/] and [mod] by 16, through their Euclidean equations. *)
Ltac euclid := Z.to_euclidean_division_equations; lia.

(** ** Strings *)

Lemma append_cons (c : ascii) (s t : string) :
  String c s +:+ t = String c (s +:+ t).
Proof. reflexivity. Qed.

Lemma append_nil_l (s : string) : "" +:+ s = s.
Proof. reflexivity. Qed.

Lemma append_nil_r (s : string) : s +:+ "" = s.
Proof.
  induction s as [|c s IH]; [reflexivity | now rewrite append_cons, IH].
Qed.

Lemma append_assoc (s t u : string) : (s +:+ t) +:+ u = s +:+ (t +:+ u).
Proof.
  induction s as [|c s IH]; [reflexivity | now rewrite !append_cons, IH].
Qed.

Lemma length_append (s t : string) :
  String.length (s +:+ t) = (String.length s + String.length t)%nat.
Proof.
  induction s as [|c s IH]; [reflexivity |].
  rewrite append_cons. cbn [String.length]. now rewrite IH.
Qed.

(** ** Blocks that behave as one write *)

Lemma encode_text_append (enc : encoding) (s t : string) :
  encode_text enc (s +:+ t) =
  match encode_text enc s, encode_text enc t with
  | Some a, Some b => Some (a ++ b)
  | _, _ => None
  end.
Proof.
  induction s as [|c s IH].
  - rewrite append_nil_l. cbn [encode_text]. now destruct (encode_text enc t).
  - rewrite append_cons. cbn [encode_text]. rewrite IH.
    destruct (enc c) as [bs|]; [| reflexivity].
    destruct (encode_text enc s) as [a|]; [| reflexivity].
    destruct (encode_text enc t) as [b|]; [| reflexivity].
    now rewrite app_assoc.
Qed.

Lemma encode_text_latin1 (s : string) :
  encode_text latin1 s = Some (list_byte_of_string s).
Proof.
  induction s as [|c s IH]; [reflexivity |].
  cbn [encode_text]. rewrite IH. reflexivity.
Qed.

Lemma exn_not_IndexError (e : exn) :
  e <> IndexError -> e = OSError \/ e = UnicodeEncodeError.
Proof. destruct e; intros H; auto; now elim H. Qed.

Lemma writes_write (s : string) : writes (write s) s.
Proof.
  intros f. destruct (encode_text (codec f) s) eqn:Hs; [reflexivity |].
  exists UnicodeEncodeError, f. unfold write. rewrite Hs.
  split; [reflexivity | discriminate].
Qed.

Lemma writes_ret : writes (mret tt) "".
Proof.
  intros [o [k|] enc]; unfold write; cbn.
  - rewrite app_nil_r, Nat.sub_0_r. reflexivity.
  - rewrite app_nil_r. reflexivity.
Qed.

Lemma writes_seq (m k : IO unit) (s t : string) :
  writes m s -> writes k t -> writes (m ;; k) (s +:+ t).
Proof.
  intros Hm Hk [o r enc]. specialize (Hm (TextFile o r enc)).
  cbn [codec] in *. rewrite encode_text_append.
  change ((m ;; k) (TextFile o r enc))
    with (io_bind m (fun _ => k) (TextFile o r enc)).
  unfold io_bind.
  destruct (encode_text enc s) as [a|] eqn:Hs.
  - rewrite Hm.
    assert (forall o' r',
               match encode_text enc t with
               | Some _ => k (TextFile o' r' enc) = write t (TextFile o' r' enc)
               | None => exists e f',
                   k (TextFile o' r' enc) = (Raise e, f') /\ e <> IndexError
               end) as Hk' by (intros o' r'; apply (Hk (TextFile o' r' enc))).
    destruct (encode_text enc t) as [b|] eqn:Ht.
    + unfold write. cbn [codec room output].
      rewrite encode_text_append, Hs, Ht.
      destruct r as [r|].
      * destruct (Nat.leb_spec (length a) r) as [Ha|Ha].
        -- rewrite Hk'. unfold write. cbn [codec room output]. rewrite Ht.
           rewrite length_app.
           destruct (Nat.leb_spec (length b) (r - length a)) as [Hb|Hb].
           ++ destruct (Nat.leb_spec (length a + length b) r); [| lia].
              rewrite app_assoc. do 3 f_equal. lia.
           ++ destruct (Nat.leb_spec (length a + length b) r); [lia |].
              rewrite take_app_ge by lia. now rewrite app_assoc.
        -- rewrite length_app.
           destruct (Nat.leb_spec (length a + length b) r); [lia |].
           rewrite take_app_le by lia. reflexivity.
      * rewrite Hk'. unfold write. cbn [codec room output]. rewrite Ht.
        now rewrite app_assoc.
    + unfold write. cbn [codec room output]. rewrite Hs.
      destruct r as [r|].
      * destruct (length a <=? r)%nat; [apply Hk' |].
        eexists OSError, _. split; [reflexivity | discriminate].
      * apply Hk'.
  - destruct Hm as (e & f' & -> & He). now exists e, f'.
Qed.

Lemma writes_when (b : bool) (m : IO unit) (s : string) :
  writes m s -> writes (when b m) (if b then s else "").
Proof. intros Hm. destruct b; [exact Hm | apply writes_ret]. Qed.

Lemma writes_bind_pure {A : Type} (m : IO A) (a : A) (k : A -> IO unit)
    (s : string) :
  (forall f, m f = (Ok a, f)) -> writes (k a) s -> writes (m ≫= k) s.
Proof.
  intros Hm Hk f.
  change ((m ≫= k) f) with (io_bind m k f).
  unfold io_bind. rewrite Hm. apply Hk.
Qed.

Lemma text_of_writes (m : IO unit) (s : string) : writes m s -> text_of m = s.
Proof.
  intros Hm. unfold text_of. specialize (Hm fresh).
  cbn [fresh codec] in Hm. rewrite encode_text_latin1 in Hm. rewrite Hm.
  unfold write. cbn [fresh codec room output]. rewrite encode_text_latin1.
  cbn [snd output app]. apply string_of_list_byte_of_string.
Qed.

(** ** The loop writes the items *)

Lemma len_nonneg (data : list byte) : 0 <= len data.
Proof. unfold len. lia. Qed.

Lemma getitem_in_range (data : list byte) (i : Z) (b : byte) :
  0 <= i -> data !! Z.to_nat i = Some b ->
  forall f, getitem data i f = (Ok (Z.of_N (Byte.to_N b)), f).
Proof.
  intros Hi Hb f. unfold getitem.
  apply lookup_lt_Some in Hb as Hlt.
  destruct (Z.ltb_spec i 0) as [|_]; [lia |].
  destruct (Z.leb_spec 0 i) as [_|]; [| lia].
  destruct (Z.ltb_spec i (len data)) as [_|Hge]; [| unfold len in Hge; lia].
  cbn. rewrite Hb. reflexivity.
Qed.

Lemma writes_loop_body (data : list byte) (i : Z) (b : byte) :
  0 <= i -> data !! Z.to_nat i = Some b ->
  writes (loop_body data i) (item (len data) i b).
Proof.
  intros Hi Hb. unfold loop_body, item.
  apply writes_seq; [apply (writes_when _ _ _ (writes_write _)) |].
  apply writes_bind_pure with (a := Z.of_N (Byte.to_N b));
    [now apply getitem_in_range |].
  apply writes_seq; [apply writes_write |].
  apply writes_seq; [apply (writes_when _ _ _ (writes_write _)) |].
  unfold line_end_of. destruct (i mod 16 =? 15); apply writes_write.
Qed.

Lemma writes_for_from (data l : list byte) (i : Z) :
  0 <= i -> drop (Z.to_nat i) data = l ->
  writes (for_from i (length l) (loop_body data)) (items (len data) i l).
Proof.
  revert i; induction l as [|b l IH]; intros i Hi Hl.
  - apply writes_ret.
  - cbn [length for_from items].
    assert (data !! Z.to_nat i = Some b) as Hb.
    { rewrite <- (Nat.add_0_r (Z.to_nat i)), <- lookup_drop, Hl. reflexivity. }
    apply writes_seq; [now apply writes_loop_body |].
    apply IH; [lia |].
    replace (Z.to_nat (i + 1)) with (S (Z.to_nat i)) by lia.
    rewrite (drop_S _ _ _ Hb) in Hl. now inversion Hl.
Qed.

Lemma writes_array_body (data : list byte) :
  writes (write_array_body data)
         (items (len data) 0 data +:+ ragged_end (len data)).
Proof.
  unfold write_array_body, write_loop, for_in_range, ragged_end.
  apply writes_seq; [| apply (writes_when _ _ _ (writes_write _))].
  unfold len at 1. rewrite Nat2Z.id. now apply writes_for_from.
Qed.

(** The array body is the items followed by the guarded line feed. *)
Lemma array_body_items (data : list byte) :
  array_body data = items (len data) 0 data +:+ ragged_end (len data).
Proof. apply text_of_writes, writes_array_body. Qed.

(** ** The pure text of the header *)

Lemma writes_document (data : list byte) (asset_name : string) :
  writes (write_document data asset_name)
         (prologue asset_name +:+ array_body data +:+ epilogue asset_name).
Proof.
  unfold write_document.
  apply writes_seq.
  - unfold write_prologue, prologue.
    apply writes_seq; [apply writes_write |].
    apply writes_seq; apply writes_write.
  - apply writes_seq; [| apply writes_write].
    rewrite array_body_items. apply writes_array_body.
Qed.

Lemma emitted_parts (data : list byte) (asset_name : string) :
  emitted data asset_name =
  prologue asset_name +:+ array_body data +:+ epilogue asset_name.
Proof. apply text_of_writes, writes_document. Qed.

(** ** Rendering of one value *)

(** For a byte, [02X] gives the digit of the high nibble, then the digit of
    the low one. *)
Lemma format_02X_byte (b : byte) :
  format_02X (Z.of_N (Byte.to_N b)) =
  String (hex_digit_upper (Byte.to_N b / 16))
         (String (hex_digit_upper (Byte.to_N b mod 16)) "").
Proof. destruct b; reflexivity. Qed.



Lemma text_of_loop_body (data : list byte) (i : Z) (b : byte) :
  0 <= i -> data !! Z.to_nat i = Some b ->
  text_of (loop_body data i) = item (len data) i b.
Proof. intros Hi Hb. now apply text_of_writes, writes_loop_body. Qed.

(** ** Reading the values back *)

Lemma parse_skip (c : ascii) (s : string) :
  Ascii.eqb c "0" = false ->
  parse_hex_bytes (String c s) = parse_hex_bytes s.
Proof.
  intros Hc. cbn [parse_hex_bytes]. rewrite Hc.
  destruct s as [|x [|h [|l rest]]]; reflexivity.
Qed.

Lemma hex_byte_digits (b : byte) :
  hex_byte (hex_digit_upper (Byte.to_N b / 16))
           (hex_digit_upper (Byte.to_N b mod 16)) = Some b.
Proof. destruct b; reflexivity. Qed.

Lemma parse_value (b : byte) (rest : string) :
  parse_hex_bytes (value_of b +:+ rest) = b :: parse_hex_bytes rest.
Proof.
  unfold value_of. rewrite format_02X_byte.
  change (parse_hex_bytes
            (String "0" (String "x"
               (String (hex_digit_upper (Byte.to_N b / 16))
                  (String (hex_digit_upper (Byte.to_N b mod 16)) rest)))) =
          b :: parse_hex_bytes rest).
  cbn [parse_hex_bytes]. rewrite hex_byte_digits. reflexivity.
Qed.

Lemma parse_indent (i : Z) (s : string) :
  parse_hex_bytes (indent_of i +:+ s) = parse_hex_bytes s.
Proof.
  unfold indent_of. destruct (i mod 16 =? 0); [| reflexivity].
  rewrite !append_cons, append_nil_l. now rewrite !parse_skip.
Qed.

Lemma parse_comma (n i : Z) (s : string) :
  parse_hex_bytes (comma_of n i +:+ s) = parse_hex_bytes s.
Proof.
  unfold comma_of. destruct (i <? n - 1); [| reflexivity].
  rewrite append_cons, append_nil_l. now rewrite parse_skip.
Qed.

Lemma parse_line_end (i : Z) (s : string) :
  parse_hex_bytes (line_end_of i +:+ s) = parse_hex_bytes s.
Proof.
  unfold line_end_of, LF. destruct (i mod 16 =? 15);
    rewrite append_cons, append_nil_l; now rewrite parse_skip.
Qed.

Lemma parse_item (n i : Z) (b : byte) (rest : string) :
  parse_hex_bytes (item n i b +:+ rest) = b :: parse_hex_bytes rest.
Proof.
  unfold item. rewrite !append_assoc.
  now rewrite parse_indent, parse_value, parse_comma, parse_line_end.
Qed.

Lemma parse_items (n i : Z) (l : list byte) (rest : string) :
  parse_hex_bytes (items n i l +:+ rest) = l ++ parse_hex_bytes rest.
Proof.
  revert i; induction l as [|b l IH]; intros i; [reflexivity |].
  cbn [items]. rewrite append_assoc, parse_item, IH. reflexivity.
Qed.

Lemma parse_ragged_end (n : Z) : parse_hex_bytes (ragged_end n) = [].
Proof. unfold ragged_end. destruct (negb (n mod 16 =? 0)); reflexivity. Qed.

Lemma items_app (n i : Z) (l1 l2 : list byte) :
  items n i (l1 ++ l2) = items n i l1 +:+ items n (i + len l1) l2.
Proof.
  revert i; induction l1 as [|b l1 IH]; intros i.
  - cbn [app items]. unfold len. cbn [length]. rewrite Z.add_0_r. reflexivity.
  - cbn [app items]. rewrite IH, append_assoc.
    unfold len. cbn [length]. do 3 f_equal. lia.
Qed.

(** ** Lines *)

Lemma lines_from_no_LF (t : string) :
  no_LF t = true ->
  forall cur s, lines_from cur (t +:+ s) = lines_from (cur +:+ t) s.
Proof.
  induction t as [|c t IH]; intros Ht cur s.
  - now rewrite append_nil_l, append_nil_r.
  - cbn [no_LF] in Ht. apply andb_prop in Ht as [Hc Ht].
    apply negb_true_iff in Hc.
    rewrite append_cons. cbn [lines_from]. rewrite Hc.
    rewrite (IH Ht). now rewrite append_assoc.
Qed.

Lemma lines_from_LF (cur s : string) :
  lines_from cur (LF +:+ s) = cur :: lines_from "" s.
Proof. reflexivity. Qed.

Lemma no_LF_append (s t : string) :
  no_LF (s +:+ t) = no_LF s && no_LF t.
Proof.
  induction s as [|c s IH]; [reflexivity |].
  rewrite append_cons. cbn [no_LF]. now rewrite IH, andb_assoc.
Qed.

Lemma starts_with_append (p r t : string) :
  starts_with p r = true -> starts_with p (r +:+ t) = true.
Proof.
  revert r; induction p as [|c p IH]; intros r Hr; [reflexivity |].
  destruct r as [|c' r]; [discriminate |].
  rewrite append_cons. cbn [starts_with] in *.
  apply andb_prop in Hr as [Hc Hr]. now rewrite Hc, IH.
Qed.

Lemma starts_with_self_append (p t : string) : starts_with p (p +:+ t) = true.
Proof.
  induction p as [|c p IH]; [reflexivity |].
  rewrite append_cons. cbn [starts_with]. now rewrite Ascii.eqb_refl, IH.
Qed.

(** The part of an item before its line end. *)
Lemma no_LF_value (b : byte) : no_LF (value_of b) = true.
Proof. destruct b; reflexivity. Qed.

Lemma no_LF_stem (n i : Z) (b : byte) :
  no_LF (indent_of i +:+ value_of b +:+ comma_of n i) = true.
Proof.
  rewrite !no_LF_append, no_LF_value. unfold indent_of, comma_of.
  destruct (i mod 16 =? 0), (i <? n - 1); reflexivity.
Qed.

Lemma data_line_stem (n i : Z) (b : byte) (t : string) :
  i mod 16 = 0 ->
  data_line ((indent_of i +:+ value_of b +:+ comma_of n i) +:+ t) = true.
Proof.
  intros Hi. unfold indent_of, value_of, data_line.
  rewrite Hi, Z.eqb_refl.
  change ("    " +:+ ("0x" +:+ format_02X (Z.of_N (Byte.to_N b)))
          +:+ comma_of n i)
    with ("    0x" +:+ (format_02X (Z.of_N (Byte.to_N b)) +:+ comma_of n i)).
  rewrite append_assoc. apply starts_with_self_append.
Qed.

(** ** The lines of the array body *)

Lemma lines_items (n : Z) (l : list byte) :
  forall (i : Z) (cur : string),
    0 <= i -> i + len l = n ->
    (i mod 16 = 0 -> cur = "") ->
    (i mod 16 <> 0 -> data_line cur = true) ->
    let ls := lines_from cur (items n i l +:+ ragged_end n) in
    Z.of_nat (length ls) = (n + 15) / 16 - i / 16 /\
    Forall (fun r => data_line r = true) ls /\
    unlines ls = cur +:+ items n i l +:+ ragged_end n.
Proof.
  induction l as [|b l IH]; intros i cur Hi Hn Hcur0 Hcur1.
  - unfold len in Hn. cbn [length] in Hn.
    assert (i = n) as -> by lia.
    cbn [items]. rewrite append_nil_l. unfold ragged_end.
    destruct (Z.eqb_spec (n mod 16) 0) as [Hz|Hnz]; cbn [negb].
    + rewrite (Hcur0 Hz). cbn. repeat split; [| constructor].
      euclid.
    + rewrite <- (append_nil_r LF), lines_from_LF.
      cbn [lines_from length unlines Z.of_nat]. repeat split.
      * euclid.
      * constructor; [now apply Hcur1 | constructor].
  - assert (len (b :: l) = len l + 1) as Hlen
      by (unfold len; cbn [length]; lia).
    set (stem := indent_of i +:+ value_of b +:+ comma_of n i).
    set (rest := items n (i + 1) l +:+ ragged_end n).
    assert (data_line (cur +:+ stem) = true) as Hline.
    { destruct (Z.eq_dec (i mod 16) 0) as [Hz|Hnz].
      - rewrite (Hcur0 Hz), append_nil_l, <- (append_nil_r stem).
        now apply data_line_stem.
      - now apply starts_with_append, Hcur1. }
    assert (items n i (b :: l) +:+ ragged_end n =
            stem +:+ line_end_of i +:+ rest) as ->
      by (cbn [items]; unfold item, stem, rest; now rewrite !append_assoc).
    rewrite (lines_from_no_LF stem (no_LF_stem n i b)).
    unfold line_end_of.
    destruct (Z.eqb_spec (i mod 16) 15) as [Hrow|Hrow].
    + rewrite lines_from_LF.
      destruct (IH (i + 1) "") as (Hcount & Hall & Hun); try lia.
      * reflexivity.
      * intros Hne. exfalso. apply Hne.
        euclid.
      * fold rest in Hcount, Hall, Hun.
        cbn [length unlines]. repeat split.
        -- rewrite Nat2Z.inj_succ, Hcount.
           euclid.
        -- now constructor.
        -- rewrite Hun, append_nil_l. now rewrite !append_assoc.
    + change (" " +:+ rest) with (String " " rest).
      rewrite <- (append_nil_l rest), <- append_cons.
      rewrite (lines_from_no_LF " " eq_refl).
      destruct (IH (i + 1) ((cur +:+ stem) +:+ " ")) as (Hcount & Hall & Hun);
        try lia.
      * intros Hz. exfalso.
        euclid.
      * intros _. now apply starts_with_append.
      * fold rest in Hcount, Hall, Hun. repeat split.
        -- rewrite Hcount. euclid.
        -- exact Hall.
        -- rewrite Hun. now rewrite !append_assoc.
Qed.

Lemma loop_text_items (data : list byte) :
  loop_text data = items (len data) 0 data.
Proof.
  apply text_of_writes. unfold write_loop, for_in_range.
  unfold len at 1. rewrite Nat2Z.id. now apply writes_for_from.
Qed.

Lemma lookup_middle (pre post : list byte) (b : byte) :
  (pre ++ b :: post) !! Z.to_nat (len pre) = Some b.
Proof. unfold len. rewrite Nat2Z.id. now apply list_lookup_middle. Qed.

(** ** The run of the script *)

Lemma emitted_header_text (data : list byte) (asset_name : string) :
  emitted data asset_name = header_text data asset_name.
Proof. rewrite emitted_parts, array_body_items. reflexivity. Qed.

(** Whatever the state of the file, the [with] block offers it the same
    text. *)
Lemma write_document_run (data : list byte) (asset_name : string) :
  writes (write_document data asset_name) (header_text data asset_name).
Proof.
  rewrite <- emitted_header_text, emitted_parts. apply writes_document.
Qed.

(** The block on a file just opened. *)
Lemma run_block (data : list byte) (asset_name : string)
    (r : option nat) (enc : encoding) :
  match encode_text enc (header_text data asset_name) with
  | Some bytes =>
      write_document data asset_name (TextFile [] r enc) =
      match r with
      | None => (Ok tt, TextFile bytes None enc)
      | Some k =>
          if (length bytes <=? k)%nat
          then (Ok tt, TextFile bytes (Some (k - length bytes)%nat) enc)
          else (Raise OSError, TextFile (take k bytes) (Some O) enc)
      end
  | None =>
      exists e f',
        write_document data asset_name (TextFile [] r enc) = (Raise e, f') /\
        e <> IndexError
  end.
Proof.
  pose proof (write_document_run data asset_name (TextFile [] r enc)) as H.
  cbn [codec] in H.
  destruct (encode_text enc (header_text data asset_name)) as [bytes|] eqn:He;
    [| exact H].
  rewrite H. unfold write. cbn [codec room output]. rewrite He.
  reflexivity.
Qed.

Lemma main_unreadable (prog png_file h_file asset_name : string) (w : world)
    (e : exn) :
  read_file w png_file = Raise e ->
  main [prog; png_file; h_file; asset_name] w = uncaught e w.
Proof. intros Hr. unfold main. cbn [length]. now rewrite Hr. Qed.

Lemma main_unopened (prog png_file h_file asset_name : string) (w : world)
    (data : list byte) :
  read_file w png_file = Ok data -> device w h_file = None ->
  main [prog; png_file; h_file; asset_name] w = uncaught OSError w.
Proof.
  intros Hr Hd. unfold main, open_w. cbn [length]. now rewrite Hr, Hd.
Qed.

Lemma main_opened (prog png_file h_file asset_name : string) (w : world)
    (data : list byte) (r : option nat) :
  read_file w png_file = Ok data -> device w h_file = Some r ->
  main [prog; png_file; h_file; asset_name] w =
  let (res, f') :=
    write_document data asset_name (TextFile [] r (text_encoding w)) in
  match res with
  | Ok _ => (Exit 0, close h_file f' w)
  | Raise e => uncaught e (close h_file f' w)
  end.
Proof.
  intros Hr Hd. unfold main, open_w. cbn [length]. now rewrite Hr, Hd.
Qed.

Lemma main_encodable (prog png_file h_file asset_name : string) (w : world)
    (data bytes : list byte) :
  read_file w png_file = Ok data ->
  encode_text (text_encoding w) (header_text data asset_name) = Some bytes ->
  main [prog; png_file; h_file; asset_name] w =
  match device w h_file with
  | None => uncaught OSError w
  | Some None =>
      (Exit 0, close h_file (TextFile bytes None (text_encoding w)) w)
  | Some (Some k) =>
      if (length bytes <=? k)%nat
      then (Exit 0,
            close h_file
              (TextFile bytes (Some (k - length bytes)%nat) (text_encoding w))
              w)
      else uncaught OSError
             (close h_file
                (TextFile (take k bytes) (Some O) (text_encoding w)) w)
  end.
Proof.
  intros Hr He.
  destruct (device w h_file) as [r|] eqn:Hd;
    [| now apply (main_unopened _ _ _ _ _ data)].
  rewrite (main_opened _ _ _ _ _ data r Hr Hd).
  pose proof (run_block data asset_name r (text_encoding w)) as Hb.
  rewrite He in Hb. rewrite Hb.
  destruct r as [k|]; [| reflexivity].
  now destruct (length bytes <=? k)%nat.
Qed.

Lemma main_unencodable (prog png_file h_file asset_name : string) (w : world)
    (data : list byte) (r : option nat) :
  read_file w png_file = Ok data ->
  encode_text (text_encoding w) (header_text data asset_name) = None ->
  device w h_file = Some r ->
  exists e f',
    main [prog; png_file; h_file; asset_name] w =
      uncaught e (close h_file f' w) /\
    e <> IndexError.
Proof.
  intros Hr He Hd.
  rewrite (main_opened _ _ _ _ _ data r Hr Hd).
  pose proof (run_block data asset_name r (text_encoding w)) as Hb.
  rewrite He in Hb. destruct Hb as (e & f' & -> & Hne).
  now exists e, f'.
Qed.

Lemma read_file_can_read (w : world) (path : string) :
  can_read w path = false <-> read_file w path = Raise OSError.
Proof.
  unfold can_read, read_file.
  destruct (files w !! resolve w path); [destruct (may_read w path) |];
    split; congruence.
Qed.

Lemma read_file_Ok (w : world) (path : string) (data : list byte) :
  read_file w path = Ok data ->
  files w !! resolve w path = Some data /\ can_read w path = true.
Proof.
  unfold can_read, read_file.
  destruct (files w !! resolve w path); [destruct (may_read w path) |];
    intros H; inversion H; subst; auto.
Qed.

Lemma read_file_cases (w : world) (path : string) :
  read_file w path = Raise OSError \/ exists data, read_file w path = Ok data.
Proof.
  unfold read_file.
  destruct (files w !! resolve w path); [destruct (may_read w path) |]; eauto.
Qed.

Lemma files_close (path : string) (f : textfile) (w : world) :
  files (close path f w) !! resolve w path = Some (output f).
Proof. unfold close. cbn [files set_files]. apply lookup_insert_eq. Qed.

(** A run that ends with status 0 has left the encoded header in the file
    the output path names. *)
Lemma main_exit_0 (prog png_file h_file asset_name : string) (w : world)
    (data : list byte) :
  read_file w png_file = Ok data ->
  fst (main [prog; png_file; h_file; asset_name] w) = Exit 0 ->
  exists bytes,
    encode_text (text_encoding w) (header_text data asset_name) = Some bytes /\
    files (snd (main [prog; png_file; h_file; asset_name] w))
      !! resolve w h_file = Some bytes.
Proof.
  intros Hr.
  destruct (encode_text (text_encoding w) (header_text data asset_name))
    as [bytes|] eqn:He.
  - rewrite (main_encodable _ _ _ _ _ data bytes Hr He).
    destruct (device w h_file) as [[k|]|]; [| | discriminate].
    + destruct (length bytes <=? k)%nat; [| discriminate].
      intros _. exists bytes. split; [reflexivity | apply files_close].
    + intros _. exists bytes. split; [reflexivity | apply files_close].
  - destruct (device w h_file) as [r|] eqn:Hd.
    + destruct (main_unencodable prog png_file h_file asset_name w data r
                  Hr He Hd) as (e & f' & -> & _).
      discriminate.
    + rewrite (main_unopened _ _ _ _ _ data Hr Hd). discriminate.
Qed.

(** Facts on one run are brought together: the bytes read, the bytes of the
    header, the device. *)
Ltac same_run :=
  repeat match goal with
    | H1 : ?x = Ok ?a, H2 : ?x = Ok ?b |- _ =>
        rewrite H1 in H2; injection H2 as <-
    | H1 : ?x = Some ?a, H2 : ?x = Some ?b |- _ =>
        rewrite H1 in H2; injection H2 as <-
    | H1 : ?x = Raise _, H2 : ?x = Ok _ |- _ =>
        rewrite H1 in H2; discriminate H2
    | H1 : ?x = Some _, H2 : ?x = None |- _ =>
        rewrite H1 in H2; discriminate H2
    | H : Some ?a = Some ?b |- _ =>
        first [ is_var b; injection H as <- | is_var a; injection H as ->
              | progress (injection H as H) | clear H ]
    | H : Uncaught ?a = Uncaught ?b |- _ =>
        first [ is_var b; injection H as <- | is_var a; injection H as ->
              | clear H ]
    end.

Ltac settle :=
  intros; same_run; subst; auto; try discriminate; try congruence;
  try reflexivity.

Ltac by_room :=
  match goal with
  | H : (_ <=? _)%nat = true |- _ => apply Nat.leb_le in H; lia
  | H : (_ <=? _)%nat = false |- _ => apply Nat.leb_gt in H; lia
  | |- (_ <=? _)%nat = true => apply Nat.leb_le; lia
  | |- (_ <=? _)%nat = false => apply Nat.leb_gt; lia
  end.

(** What is left of a case of a run: the alternatives of a hypothesis, the
    room of the device, the file after [close]. *)
Ltac settle_run :=
  settle; try lia; try by_room; try apply files_close;
  try match goal with
    | H : _ \/ _ |- _ =>
        destruct H as [?|(? & ? & ? & ? & ?)]; settle; try by_room
    end;
  try match goal with
    | H : forall d, _ -> encode_text _ _ <> None |- _ =>
        exfalso; eapply H; eauto; fail
    end.

(** * The properties of the emitted header *)

(** C1. Round trip: for every input byte sequence (of any length, zero
    included) and every asset name, the emitted header is the prologue, the
    array body and the epilogue, and reading the hexadecimal values back out
    of the array body gives the input bytes again: same values, same order,
    same number. *)
Theorem C1_round_trip (data : list byte) (asset_name : string) :
  emitted data asset_name =
    prologue asset_name +:+ array_body data +:+ epilogue asset_name /\
  parse_hex_bytes (array_body data) = data.
Proof.
  split; [apply emitted_parts |].
  rewrite array_body_items, parse_items, parse_ragged_end.
  apply app_nil_r.
Qed.

(** C2, as the spec states it, fails on the empty input: the guard after the
    loop tests [len(data) % 16 != 0], and [0 % 16] is [0], so nothing is
    written; the array body is empty, not one empty line, and the header does
    not show an opening brace followed by two line feeds. *)
Lemma C2_empty_input_counterexample :
  len [] mod 16 = 0 /\
  array_body [] <> LF /\
  occurs_in ("{" +:+ LF +:+ LF +:+ "}") (emitted [] "x") = false.
Proof. split; [reflexivity | split; [discriminate | reflexivity]]. Qed.

(** C2, amended. After the loop one more line feed is written exactly when
    the length is not a multiple of 16; the empty input has length [0], a
    multiple of 16, so its array body is empty and the closing brace follows
    the line of the opening one directly. *)
Theorem C2_ragged_newline (data : list byte) (asset_name : string) :
  array_body data =
    loop_text data +:+ (if len data mod 16 =? 0 then "" else LF) /\
  array_body [] = "" /\
  emitted [] asset_name = prologue asset_name +:+ epilogue asset_name.
Proof.
  split; [| split; [reflexivity |]].
  - rewrite array_body_items, loop_text_items. unfold ragged_end.
    now destruct (len data mod 16 =? 0).
  - now rewrite emitted_parts.
Qed.

(** C3. Separators: the round of the loop for the byte at index [i] (the
    byte [b] of [pre ++ b :: post], with [i = len pre]) writes the value,
    then a comma exactly when [i < N - 1], then a line feed when
    [i mod 16 = 15] and one space otherwise.  Hence between two consecutive
    values [b], [c] of the array body stands a comma and a space inside a
    row, and a comma, a bare line feed and the indentation of the next row
    at a row boundary. *)
Theorem C3_separators (pre post : list byte) (b c : byte) :
  text_of (loop_body (pre ++ b :: post) (len pre)) =
    indent_of (len pre) +:+ value_of b +:+
    (if len pre <? len (pre ++ b :: post) - 1 then "," else "") +:+
    (if len pre mod 16 =? 15 then LF else " ") /\
  array_body (pre ++ b :: c :: post) =
    items (len (pre ++ b :: c :: post)) 0 pre +:+
    indent_of (len pre) +:+ value_of b +:+
    (if len pre mod 16 =? 15 then "," +:+ LF +:+ "    " else ", ") +:+
    value_of c +:+
    comma_of (len (pre ++ b :: c :: post)) (len pre + 1) +:+
    line_end_of (len pre + 1) +:+
    items (len (pre ++ b :: c :: post)) (len pre + 2) post +:+
    ragged_end (len (pre ++ b :: c :: post)).
Proof.
  split.
  - rewrite (text_of_loop_body _ _ b);
      [reflexivity | apply len_nonneg | apply lookup_middle].
  - rewrite array_body_items, items_app, Z.add_0_l. cbn [items].
    set (n := len (pre ++ b :: c :: post)).
    assert (n = len pre + 2 + len post) as Hn.
    { unfold n, len. rewrite length_app. cbn [length]. lia. }
    replace (len pre + 1 + 1) with (len pre + 2) by lia.
    unfold item. unfold comma_of at 1.
    destruct (Z.ltb_spec (len pre) (n - 1)) as [_|Hge];
      [| pose proof (len_nonneg post); lia].
    unfold line_end_of at 1. unfold indent_of at 2.
    pose proof (len_nonneg pre) as Hpre.
    destruct (Z.eqb_spec (len pre mod 16) 15) as [Hrow|Hrow].
    + destruct (Z.eqb_spec ((len pre + 1) mod 16) 0) as [_|Hne];
        [| exfalso; apply Hne; euclid].
      now rewrite !append_assoc.
    + destruct (Z.eqb_spec ((len pre + 1) mod 16) 0) as [Hz|_];
        [exfalso; apply Hrow; euclid |].
      now rewrite !append_assoc.
Qed.


(** C5. Row count: the array body is exactly its lines, each closed by one
    line feed; every line is a data line (indentation, then a value); their
    number [k] is the ceiling of [N / 16], that is [16 (k - 1) < N <= 16 k].
    After the last value the body ends with the line feed of the row alone
    when [N] is a multiple of 16, and with a space and the line feed of the
    guard otherwise: a full last row gets no second line feed. *)
Theorem C5_row_count (data pre : list byte) (b : byte) :
  unlines (lines (array_body data)) = array_body data /\
  Forall (fun r => data_line r = true) (lines (array_body data)) /\
  Z.of_nat (length (lines (array_body data))) = (len data + 15) / 16 /\
  16 * (Z.of_nat (length (lines (array_body data))) - 1) < len data
    <= 16 * Z.of_nat (length (lines (array_body data))) /\
  array_body (pre ++ [b]) =
    items (len (pre ++ [b])) 0 pre +:+ indent_of (len pre) +:+ value_of b +:+
    (if len (pre ++ [b]) mod 16 =? 0 then LF else " " +:+ LF).
Proof.
  pose proof (len_nonneg data) as Hn.
  destruct (lines_items (len data) data 0 "") as (Hcount & Hall & Hun);
    [lia | lia | reflexivity | intros H; now elim H |].
  rewrite append_nil_l in Hun.
  change (0 / 16) with 0 in Hcount. rewrite Z.sub_0_r in Hcount.
  unfold lines. rewrite (array_body_items data).
  repeat split; try assumption.
  - rewrite Hcount. euclid.
  - rewrite Hcount. euclid.
  - rewrite array_body_items, items_app, Z.add_0_l. cbn [items].
    rewrite append_nil_r.
    assert (len (pre ++ [b]) = len pre + 1) as ->
      by (unfold len; rewrite length_app; cbn [length]; lia).
    pose proof (len_nonneg pre) as Hpre.
    unfold item, comma_of, line_end_of, ragged_end.
    destruct (Z.ltb_spec (len pre) (len pre + 1 - 1)) as [|_]; [lia |].
    destruct (Z.eqb_spec (len pre mod 16) 15) as [Hrow|Hrow];
      destruct (Z.eqb_spec ((len pre + 1) mod 16) 0) as [Hz|Hz];
      cbn [negb];
      try (exfalso; euclid);
      now rewrite !append_assoc, ?append_nil_r.
Qed.

(** Scenario B: sixteen bytes make one full row and nothing after it. *)
Example scenario_B :
  array_body [x00; x01; x02; x03; x04; x05; x06; x07;
              x08; x09; x0a; x0b; x0c; x0d; x0e; x0f] =
  "    0x00, 0x01, 0x02, 0x03, 0x04, 0x05, 0x06, 0x07, " +:+
  "0x08, 0x09, 0x0A, 0x0B, 0x0C, 0x0D, 0x0E, 0x0F" +:+ LF.
Proof. reflexivity. Qed.

(** Scenario C: seventeen bytes make a full row and a row of one value. *)
Example scenario_C :
  lines (array_body (repeat xff 17)) =
  ["    0xFF, 0xFF, 0xFF, 0xFF, 0xFF, 0xFF, 0xFF, 0xFF, " +:+
   "0xFF, 0xFF, 0xFF, 0xFF, 0xFF, 0xFF, 0xFF, 0xFF,";
   "    0xFF "].
Proof. reflexivity. Qed.

(** C6, as the spec states it, fails: for the single byte [0x00] and the
    name [x] the header does not contain the value directly followed by the
    line feed. *)
Lemma C6_scenario_A_counterexample :
  occurs_in
    ("unsigned char x[] = {" +:+ LF +:+ "    0x00" +:+ LF +:+ "};" +:+ LF
     +:+ "unsigned int x_len = sizeof(x);")
    (emitted [x00] "x") = false.
Proof. reflexivity. Qed.

(** C6, amended. Scenario A: for the single byte [0x00] and the name [x] the
    header contains the declaration with one space between [0x00] and its
    line feed (index 0 is not the end of a row, so the loop writes a space,
    and the guard after the loop writes the line feed); the whole header is
    as shown. *)
Theorem C6_scenario_A :
  occurs_in
    ("unsigned char x[] = {" +:+ LF +:+ "    0x00 " +:+ LF +:+ "};" +:+ LF
     +:+ "unsigned int x_len = sizeof(x);")
    (emitted [x00] "x") = true /\
  emitted [x00] "x" =
    "#ifndef X_H" +:+ LF +:+ "#define X_H" +:+ LF +:+ LF +:+
    "unsigned char x[] = {" +:+ LF +:+ "    0x00 " +:+ LF +:+ "};" +:+ LF +:+
    "unsigned int x_len = sizeof(x);" +:+ LF +:+ LF +:+ "#endif" +:+ LF.
Proof. split; reflexivity. Qed.

(** C7. Names: in the header of every input and every asset name, the guard
    token is [upper(asset_name)] followed by [_H] (in both guard lines), the
    array is named [lower(asset_name)] and the length
    [lower(asset_name)] followed by [_len]; the three names are computed from
    the asset name alone.  For [Sprite] they are [SPRITE_H], [sprite] and
    [sprite_len]. *)
Theorem C7_names (data : list byte) (asset_name : string) :
  emitted data asset_name =
    "#ifndef " +:+ (upper asset_name +:+ "_H") +:+ LF +:+
    "#define " +:+ (upper asset_name +:+ "_H") +:+ LF +:+ LF +:+
    "unsigned char " +:+ lower asset_name +:+ "[] = {" +:+ LF +:+
    array_body data +:+
    "};" +:+ LF +:+
    "unsigned int " +:+ (lower asset_name +:+ "_len") +:+
    " = sizeof(" +:+ lower asset_name +:+ ");" +:+ LF +:+ LF +:+
    "#endif" +:+ LF /\
  upper_name "Sprite" +:+ "_H" = "SPRITE_H" /\
  var_name "Sprite" = "sprite" /\
  len_name "Sprite" = "sprite_len".
Proof.
  split; [| repeat split].
  rewrite emitted_parts. unfold prologue, epilogue, upper_name, var_name,
    len_name.
  now rewrite !append_assoc.
Qed.

(** * The properties of the run *)

(** C8, as the spec states it, fails on the stream: run with no argument,
    the script ends with status 1 but leaves the error stream as it was; the
    usage line is not on it. *)
Lemma C8_usage_stream_counterexample :
  length ["png_to_c.py"] <> 4%nat /\
  fst (main ["png_to_c.py"] empty_world) = Exit 1 /\
  stderr (snd (main ["png_to_c.py"] empty_world)) = stderr empty_world /\
  occurs_in usage (stderr (snd (main ["png_to_c.py"] empty_world))) = false.
Proof. repeat split. discriminate. Qed.

(** C8, amended. Usage error: whenever [sys.argv] does not have exactly four
    entries (the script and three arguments), the run ends with exit status
    1 after [print] has put the usage line on standard output; the error
    stream is left as it was and no file is touched: the files are those of
    before. *)
Theorem C8_usage_error (argv : list string) (w : world) :
  length argv <> 4%nat ->
  fst (main argv w) = Exit 1 /\
  exit_status (fst (main argv w)) = 1 /\
  stdout (snd (main argv w)) = stdout w +:+ usage +:+ LF /\
  stderr (snd (main argv w)) = stderr w /\
  files (snd (main argv w)) = files w.
Proof.
  intros Hargc. unfold main.
  destruct (Z.eqb_spec (Z.of_nat (length argv)) 4) as [Heq|_]; [lia |].
  cbn [negb fst snd exit_status]. repeat split.
Qed.

Lemma C8_usage_error_witness :
  fst (main ["png_to_c.py"; "logo.png"] empty_world) = Exit 1 /\
  exit_status (fst (main ["png_to_c.py"; "logo.png"] empty_world)) = 1 /\
  stdout (snd (main ["png_to_c.py"; "logo.png"] empty_world)) =
    stdout empty_world +:+ usage +:+ LF /\
  stderr (snd (main ["png_to_c.py"; "logo.png"] empty_world)) =
    stderr empty_world /\
  files (snd (main ["png_to_c.py"; "logo.png"] empty_world)) =
    files empty_world.
Proof.
  apply (C8_usage_error ["png_to_c.py"; "logo.png"] empty_world).
  cbn. lia.
Defined.

(** C9, as the spec states it, fails: with an input that can be read and an
    output that can be created and takes any number of bytes, the run for an
    asset name that the text encoding of the platform cannot encode ends in
    an exception nobody caught that is not an [OSError], and not in
    success. *)
Lemma C9_encoding_counterexample :
  can_read world_ascii "logo.png" = true /\
  (forall n, can_write world_ascii "logo.h" n = true) /\
  fst (main ["png_to_c.py"; "logo.png"; "logo.h"; name_not_ascii] world_ascii)
    = Uncaught UnicodeEncodeError /\
  files (snd (main ["png_to_c.py"; "logo.png"; "logo.h"; name_not_ascii]
                   world_ascii)) !! "logo.h" = Some [].
Proof.
  split; [vm_compute; reflexivity |].
  split; [intros n; reflexivity |].
  split; vm_compute; reflexivity.
Qed.

(** C9, amended. I/O failure: with three arguments, and a header that the
    text encoding of the platform can encode, the run ends in an uncaught
    [OSError] exactly when the input path cannot be opened and read, or the
    output path cannot be created or does not take the whole header;
    otherwise it ends with status 0 and the output file holds the complete
    header, encoded.  A header that cannot be encoded makes the run end in an
    uncaught [UnicodeEncodeError] or [OSError], never in success.  No failure
    is handled: the exit status is not 0, the interpreter's traceback goes to
    the error stream, nothing is retried and nothing is cleaned up (when the
    device gives out after [k] bytes, the output file keeps those [k]
    bytes).  The input is read before the output is opened: when reading
    fails, or the output cannot be opened, the files are as before. *)
Theorem C9_io_failure (prog png_file h_file asset_name : string) (w : world) :
  exists (o : outcome) (w' : world),
    main [prog; png_file; h_file; asset_name] w = (o, w') /\
    ((forall data, read_file w png_file = Ok data ->
        encode_text (text_encoding w) (header_text data asset_name) <> None) ->
     (o = Uncaught OSError <->
        can_read w png_file = false \/
        exists data bytes,
          read_file w png_file = Ok data /\
          encode_text (text_encoding w) (header_text data asset_name)
            = Some bytes /\
          can_write w h_file (length bytes) = false) /\
     (o = Exit 0 \/ o = Uncaught OSError)) /\
    (forall data bytes,
       read_file w png_file = Ok data ->
       encode_text (text_encoding w) (header_text data asset_name)
         = Some bytes ->
       (o = Exit 0 <-> can_write w h_file (length bytes) = true) /\
       (o = Exit 0 -> files w' !! resolve w h_file = Some bytes) /\
       (forall k, device w h_file = Some (Some k) ->
          (k < length bytes)%nat ->
          files w' !! resolve w h_file = Some (take k bytes))) /\
    (forall data,
       read_file w png_file = Ok data ->
       encode_text (text_encoding w) (header_text data asset_name) = None ->
       o = Uncaught OSError \/ o = Uncaught UnicodeEncodeError) /\
    (can_read w png_file = false ->
       o = Uncaught OSError /\ files w' = files w) /\
    (device w h_file = None -> o = Uncaught OSError /\ files w' = files w) /\
    (forall e, o = Uncaught e ->
       exit_status o <> 0 /\ stdout w' = stdout w /\
       stderr w' = stderr w +:+ traceback w e) /\
    (o = Exit 0 -> stdout w' = stdout w /\ stderr w' = stderr w).
Proof.
  destruct (read_file_cases w png_file) as [Hr|[data Hr]].
  - (* the input cannot be read *)
    apply read_file_can_read in Hr as Hcr.
    rewrite (main_unreadable _ _ _ _ _ _ Hr).
    eexists _, _. split; [reflexivity |].
    repeat split; settle_run.
  - apply read_file_Ok in Hr as Hcr. destruct Hcr as [_ Hcr].
    destruct (encode_text (text_encoding w) (header_text data asset_name))
      as [bytes|] eqn:He.
    + rewrite (main_encodable _ _ _ _ _ data bytes Hr He).
      unfold can_write.
      destruct (device w h_file) as [[k|]|] eqn:Hd.
      * destruct (Nat.leb_spec (length bytes) k) as [Hfit|Hshort].
        -- (* the header fits *)
           eexists _, _. split; [reflexivity |].
           repeat split; settle_run.
        -- (* the device gives out *)
           eexists _, _. split; [reflexivity |].
           repeat split; settle_run.
           right. exists data, bytes. repeat split; auto. by_room.
      * (* no limit *)
        eexists _, _. split; [reflexivity |].
        repeat split; settle_run.
      * (* the output cannot be opened *)
        eexists _, _. split; [reflexivity |].
        repeat split; settle_run.
        right. exists data, bytes. repeat split; auto.
    + (* the header cannot be encoded *)
      destruct (device w h_file) as [r|] eqn:Hd.
      * destruct (main_unencodable prog png_file h_file asset_name w data r
                    Hr He Hd) as (e & f' & -> & Hne).
        apply exn_not_IndexError in Hne.
        eexists _, _. split; [reflexivity |].
        repeat split; settle_run.
        destruct Hne as [-> | ->]; auto.
      * rewrite (main_unopened _ _ _ _ _ data Hr Hd).
        eexists _, _. split; [reflexivity |].
        repeat split; settle_run.
Qed.

Lemma C9_io_failure_witness :
  exists (o : outcome) (w' : world),
    main ["png_to_c.py"; "logo.png"; "logo.h"; "Logo"] world_small = (o, w') /\
    o <> Exit 0 /\
    files w' !! "logo.h" = Some (list_byte_of_string "#ifndef LO").
Proof.
  destruct (C9_io_failure "png_to_c.py" "logo.png" "logo.h" "Logo" world_small)
    as (o & w' & Hrun & _ & Hdoc & _).
  exists o, w'. split; [exact Hrun |].
  destruct (Hdoc [x89; x50; x4e; x47]
              (list_byte_of_string
                 (header_text [x89; x50; x4e; x47] "Logo")))
    as (Hok & _ & Hpart);
    [vm_compute; reflexivity | vm_compute; reflexivity |].
  split.
  - intros Ho. apply Hok in Ho. vm_compute in Ho. discriminate Ho.
  - refine (eq_trans (Hpart 10%nat _ _) _);
      [reflexivity | vm_compute; lia | vm_compute; reflexivity].
Defined.

(** C10, as the spec states it, fails: the output depends on the
    environment.  Two runs on input files with the same bytes, with the same
    asset name, both ending with status 0, leave different bytes when one
    platform writes line feeds as they are and the other as carriage return
    and line feed; and on one platform, a run whose output device takes ten
    bytes leaves a file other than that of a run whose device has no
    limit. *)
Lemma C10_environment_counterexample :
  read_file world_a "logo.png" = read_file world_crlf "logo.png" /\
  read_file world_a "logo.png" = read_file world_small "logo.png" /\
  fst (main ["png_to_c.py"; "logo.png"; "logo.h"; "Logo"] world_a) = Exit 0 /\
  fst (main ["png_to_c.py"; "logo.png"; "logo.h"; "Logo"] world_crlf)
    = Exit 0 /\
  files (snd (main ["png_to_c.py"; "logo.png"; "logo.h"; "Logo"] world_a))
    !! "logo.h" <>
  files (snd (main ["png_to_c.py"; "logo.png"; "logo.h"; "Logo"] world_crlf))
    !! "logo.h" /\
  text_encoding world_a = text_encoding world_small /\
  files (snd (main ["png_to_c.py"; "logo.png"; "logo.h"; "Logo"] world_a))
    !! "logo.h" <>
  files (snd (main ["png_to_c.py"; "logo.png"; "logo.h"; "Logo"] world_small))
    !! "logo.h".
Proof.
  repeat split; try (vm_compute; reflexivity).
  - vm_compute. discriminate.
  - vm_compute. discriminate.
Qed.

(** C10, amended. Determinism: the text the script offers to the output
    file is a function of the input bytes and the asset name alone, whatever
    the state of that file; the bytes of the output file are that text in
    the text encoding and newline convention of the platform.  Of two runs, in
    any two worlds and under any script, input and output paths, on input
    files with the same bytes, with the same asset name and under the same
    text encoding: when both complete, the output files hold the same
    bytes, those of the encoded header; and when the outputs are opened on
    devices with the same room, the runs end the same way and the output
    files hold the same bytes, complete or not. *)
Theorem C10_determinism
    (prog1 prog2 in1 in2 out1 out2 asset_name : string)
    (w1 w2 : world) (data : list byte) :
  read_file w1 in1 = Ok data ->
  read_file w2 in2 = Ok data ->
  text_encoding w1 = text_encoding w2 ->
  writes (write_document data asset_name) (header_text data asset_name) /\
  (fst (main [prog1; in1; out1; asset_name] w1) = Exit 0 ->
   fst (main [prog2; in2; out2; asset_name] w2) = Exit 0 ->
   files (snd (main [prog1; in1; out1; asset_name] w1)) !! resolve w1 out1 =
     encode_text (text_encoding w1) (header_text data asset_name) /\
   files (snd (main [prog2; in2; out2; asset_name] w2)) !! resolve w2 out2 =
     files (snd (main [prog1; in1; out1; asset_name] w1)) !! resolve w1 out1)
  /\
  (forall r : option nat,
     device w1 out1 = Some r -> device w2 out2 = Some r ->
     fst (main [prog2; in2; out2; asset_name] w2) =
       fst (main [prog1; in1; out1; asset_name] w1) /\
     files (snd (main [prog2; in2; out2; asset_name] w2)) !! resolve w2 out2 =
       files (snd (main [prog1; in1; out1; asset_name] w1))
         !! resolve w1 out1).
Proof.
  intros Hr1 Hr2 Henc.
  split; [apply write_document_run |]. split.
  - intros Hok1 Hok2.
    destruct (main_exit_0 _ _ _ _ _ _ Hr1 Hok1) as (b1 & He1 & Hf1).
    destruct (main_exit_0 _ _ _ _ _ _ Hr2 Hok2) as (b2 & He2 & Hf2).
    rewrite <- Henc in He2. rewrite Hf1, Hf2, He1. split; congruence.
  - intros r Hd1 Hd2.
    rewrite (main_opened _ _ _ _ _ data r Hr1 Hd1).
    rewrite (main_opened _ _ _ _ _ data r Hr2 Hd2).
    rewrite <- Henc.
    destruct (write_document data asset_name
                (TextFile [] r (text_encoding w1))) as [[[]|e] f'];
      cbn [fst snd uncaught]; split; try reflexivity.
    + now rewrite !files_close.
    + cbn [files set_stderr]. now rewrite !files_close.
Qed.

Lemma C10_determinism_witness :
  writes (write_document [x89; x50; x4e; x47] "Logo")
         (header_text [x89; x50; x4e; x47] "Logo") /\
  (fst (main ["png_to_c.py"; "logo.png"; "logo.h"; "Logo"] world_a) = Exit 0 ->
   fst (main ["./png_to_c.py"; "in/img.bin"; "out/img.h"; "Logo"] world_b)
     = Exit 0 ->
   files (snd (main ["png_to_c.py"; "logo.png"; "logo.h"; "Logo"] world_a))
     !! resolve world_a "logo.h" =
     encode_text (text_encoding world_a)
                 (header_text [x89; x50; x4e; x47] "Logo") /\
   files (snd (main ["./png_to_c.py"; "in/img.bin"; "out/img.h"; "Logo"]
                    world_b)) !! resolve world_b "out/img.h" =
     files (snd (main ["png_to_c.py"; "logo.png"; "logo.h"; "Logo"] world_a))
       !! resolve world_a "logo.h")
  /\
  (forall r : option nat,
     device world_a "logo.h" = Some r -> device world_b "out/img.h" = Some r ->
     fst (main ["./png_to_c.py"; "in/img.bin"; "out/img.h"; "Logo"] world_b) =
       fst (main ["png_to_c.py"; "logo.png"; "logo.h"; "Logo"] world_a) /\
     files (snd (main ["./png_to_c.py"; "in/img.bin"; "out/img.h"; "Logo"]
                      world_b)) !! resolve world_b "out/img.h" =
       files (snd (main ["png_to_c.py"; "logo.png"; "logo.h"; "Logo"] world_a))
         !! resolve world_a "logo.h").
Proof.
  apply (C10_determinism "png_to_c.py" "./png_to_c.py" "logo.png" "in/img.bin"
           "logo.h" "out/img.h" "Logo" world_a world_b [x89; x50; x4e; x47]);
    [vm_compute; reflexivity | vm_compute; reflexivity | reflexivity].
Defined.

(** * Further properties of the array body *)

(** ** Measures over concatenation *)

Lemma all_chars_append (P : ascii -> bool) (s t : string) :
  all_chars P (s +:+ t) = all_chars P s && all_chars P t.
Proof.
  induction s as [|c s IH]; [reflexivity |].
  rewrite append_cons. cbn [all_chars]. now rewrite IH, andb_assoc.
Qed.

Lemma count_char_append (c : ascii) (s t : string) :
  count_char c (s +:+ t) = (count_char c s + count_char c t)%nat.
Proof.
  induction s as [|c' s IH]; [reflexivity |].
  rewrite append_cons. cbn [count_char]. rewrite IH. lia.
Qed.

Lemma append_cancel_r (s t u : string) : s +:+ u = t +:+ u -> s = t.
Proof.
  intros H.
  assert (String.length s = String.length t) as Hlen.
  { apply (f_equal String.length) in H. rewrite !length_append in H. lia. }
  revert t H Hlen; induction s as [|c s IH]; intros [|c' t] H Hlen;
    try discriminate; [reflexivity |].
  rewrite !append_cons in H. injection H as -> H.
  cbn in Hlen. f_equal. apply IH; [exact H | lia].
Qed.

(** ** The alphabet, the commas and the size of the body *)

Lemma value_alphabet (b : byte) :
  all_chars (fun c => char_in c body_alphabet) (value_of b) = true.
Proof. destruct b; reflexivity. Qed.

Lemma item_alphabet (n i : Z) (b : byte) :
  all_chars (fun c => char_in c body_alphabet) (item n i b) = true.
Proof.
  unfold item. rewrite !all_chars_append, value_alphabet.
  unfold indent_of, comma_of, line_end_of.
  destruct (i mod 16 =? 0), (i <? n - 1), (i mod 16 =? 15); reflexivity.
Qed.

Lemma items_alphabet (n i : Z) (l : list byte) :
  all_chars (fun c => char_in c body_alphabet) (items n i l) = true.
Proof.
  revert i; induction l as [|b l IH]; intros i; [reflexivity |].
  cbn [items]. now rewrite all_chars_append, item_alphabet, IH.
Qed.

Lemma value_no_comma (b : byte) : count_char "," (value_of b) = O.
Proof. destruct b; reflexivity. Qed.

Lemma items_commas (n : Z) (l : list byte) :
  forall i : Z, i + len l = n ->
    count_char "," (items n i l) = (length l - 1)%nat.
Proof.
  induction l as [|b l IH]; intros i Hn; [reflexivity |].
  assert (len (b :: l) = len l + 1) as Hlen
    by (unfold len; cbn [length]; lia).
  cbn [items]. rewrite count_char_append, (IH (i + 1)) by lia.
  unfold item. rewrite !count_char_append, value_no_comma.
  unfold indent_of, comma_of, line_end_of.
  destruct (Z.ltb_spec i (n - 1)) as [Hlt|Hge];
    destruct (i mod 16 =? 0), (i mod 16 =? 15); cbn [count_char length];
    unfold len in *; cbn; destruct l; cbn [length] in *; lia.
Qed.

Lemma value_length (b : byte) : String.length (value_of b) = 4%nat.
Proof. destruct b; reflexivity. Qed.

Lemma items_length (n : Z) (l : list byte) :
  forall i : Z, 0 <= i -> i + len l = n ->
    Z.of_nat (String.length (items n i l)) =
    6 * len l - (if len l =? 0 then 0 else 1)
    + 4 * ((n + 15) / 16 - (i + 15) / 16).
Proof.
  induction l as [|b l IH]; intros i Hi Hn.
  - assert (i = n) as -> by (unfold len in Hn; cbn [length] in Hn; lia).
    rewrite (Z.sub_diag ((n + 15) / 16)). reflexivity.
  - assert (len (b :: l) = len l + 1) as Hlen
      by (unfold len; cbn [length]; lia).
    pose proof (len_nonneg l) as Hl.
    cbn [items]. rewrite length_append, Nat2Z.inj_add, (IH (i + 1)) by lia.
    unfold item. rewrite !length_append, value_length.
    rewrite Hlen. unfold indent_of, comma_of, line_end_of.
    destruct (Z.eqb_spec (len l + 1) 0) as [|_]; [lia |].
    destruct (Z.ltb_spec i (n - 1)) as [Hlt|Hge];
      destruct (Z.eqb_spec (len l) 0) as [Hl0|Hl0]; try lia;
      destruct (Z.eqb_spec (i mod 16) 0) as [Hz|Hz];
      destruct (Z.eqb_spec (i mod 16) 15) as [Hrow|Hrow];
      cbn [String.length LF]; euclid.
Qed.

(** X1. The array body is written in the characters space, comma, the
    digits [0] to [9], the letters [A] to [F], [x] and the line feed, and in
    no other. *)
Theorem X1_body_alphabet (data : list byte) :
  all_chars (fun c => char_in c body_alphabet) (array_body data) = true.
Proof.
  rewrite array_body_items, all_chars_append, items_alphabet.
  unfold ragged_end. now destruct (negb (len data mod 16 =? 0)).
Qed.

(** X2. The array body holds one comma fewer than values (none for the
    empty input): every value but the last is followed by a comma, and no
    comma trails the last one. *)
Theorem X2_body_commas (data : list byte) :
  count_char "," (array_body data) = (length data - 1)%nat /\
  count_char "," (array_body data) =
    (length (parse_hex_bytes (array_body data)) - 1)%nat.
Proof.
  assert (count_char "," (array_body data) = (length data - 1)%nat) as H.
  { rewrite array_body_items, count_char_append, (items_commas _ _ 0) by lia.
    unfold ragged_end. destruct (negb (len data mod 16 =? 0)); cbn; lia. }
  split; [exact H |].
  rewrite H, array_body_items, parse_items, parse_ragged_end, app_nil_r.
  reflexivity.
Qed.

(** X3. The size of the array body: nothing for the empty input; otherwise
    six characters a value less one (the comma the last value does not get),
    four of indentation a row, and one more when the last row is not full. *)
Theorem X3_body_size (data : list byte) :
  Z.of_nat (String.length (array_body data)) =
  if len data =? 0 then 0
  else 6 * len data - 1 + 4 * ((len data + 15) / 16)
       + (if len data mod 16 =? 0 then 0 else 1).
Proof.
  pose proof (len_nonneg data) as Hn.
  rewrite array_body_items, length_append, Nat2Z.inj_add.
  rewrite (items_length _ _ 0) by lia.
  change ((0 + 15) / 16) with 0. unfold ragged_end.
  destruct (Z.eqb_spec (len data) 0) as [H0|H0].
  - rewrite H0. reflexivity.
  - destruct (Z.eqb_spec (len data mod 16) 0); cbn [negb String.length LF];
      lia.
Qed.

(** ** The rows read back *)

Lemma rows_from_short (l1 : list byte) :
  forall acc l2 : list byte,
    (length acc + length l1 < 16)%nat ->
    rows_from acc (l1 ++ l2) = rows_from (acc ++ l1) l2.
Proof.
  induction l1 as [|b l1 IH]; intros acc l2 Hlt.
  - now rewrite app_nil_r.
  - cbn [app rows_from length] in *.
    destruct (Nat.eqb_spec (length (acc ++ [b])) 16) as [Heq|_].
    + rewrite length_app in Heq. cbn [length] in Heq. lia.
    + rewrite IH by (rewrite length_app; cbn [length]; lia).
      now rewrite <- app_assoc.
Qed.

Lemma rows_from_full (l1 l2 : list byte) :
  length l1 = 16%nat -> rows_from [] (l1 ++ l2) = l1 :: rows_from [] l2.
Proof.
  intros Hlen.
  destruct (List.exists_last (l := l1)) as (front & b & ->);
    [intros ->; discriminate |].
  rewrite length_app in Hlen. cbn [length] in Hlen.
  rewrite <- app_assoc. cbn [app].
  rewrite rows_from_short by (cbn [length]; lia).
  cbn [app rows_from].
  destruct (Nat.eqb_spec (length (front ++ [b])) 16) as [_|Hne];
    [reflexivity |].
  rewrite length_app in Hne. cbn [length] in Hne. lia.
Qed.

Lemma rows_from_last (l : list byte) :
  l <> [] -> (length l < 16)%nat -> rows_from [] l = [l].
Proof.
  intros Hne Hlt.
  rewrite <- (app_nil_r l) at 1.
  rewrite rows_from_short by (cbn [length]; lia).
  cbn [app rows_from]. destruct l; [contradiction | reflexivity].
Qed.

(** Row [k] is the sixteen bytes from index [16 k] on, or what is left of
    them. *)
Lemma rows_lookup (k : nat) :
  forall l : list byte,
    rows l !! k =
    if (16 * k <? length l)%nat then Some (take 16 (drop (16 * k) l))
    else None.
Proof.
  unfold rows.
  induction k as [|k IH]; intros l.
  - rewrite Nat.mul_0_r, drop_0.
    destruct (Nat.ltb_spec 0 (length l)) as [Hpos|Hz].
    + destruct (Nat.lt_ge_cases (length l) 16) as [Hlt|Hge].
      * rewrite rows_from_last by (try lia; now destruct l).
        rewrite take_ge by lia. reflexivity.
      * rewrite <- (take_drop 16 l) at 1.
        rewrite rows_from_full by (rewrite length_take; lia). reflexivity.
    + destruct l; [reflexivity | cbn in Hz; lia].
  - destruct (Nat.lt_ge_cases (length l) 16) as [Hlt|Hge].
    + destruct (Nat.ltb_spec (16 * S k) (length l)) as [|_]; [lia |].
      destruct l as [|b l]; [reflexivity |].
      now rewrite rows_from_last by (try lia; discriminate).
    + rewrite <- (take_drop 16 l) at 1.
      rewrite rows_from_full by (rewrite length_take; lia).
      cbn [lookup list_lookup]. rewrite IH, length_drop, drop_drop.
      replace (16 + 16 * k)%nat with (16 * S k)%nat by lia.
      destruct (Nat.ltb_spec (16 * k) (length l - 16)),
               (Nat.ltb_spec (16 * S k) (length l)); try lia; reflexivity.
Qed.

Lemma lines_rows (n : Z) (l : list byte) :
  forall (i : Z) (cur : string) (acc : list byte),
    0 <= i -> i + len l = n ->
    (i mod 16 = 0 -> cur = "") ->
    Z.of_nat (length acc) = i mod 16 ->
    (forall t, parse_hex_bytes (cur +:+ t) = acc ++ parse_hex_bytes t) ->
    map parse_hex_bytes (lines_from cur (items n i l +:+ ragged_end n)) =
    rows_from acc l.
Proof.
  induction l as [|b l IH]; intros i cur acc Hi Hn Hcur Hacc Hparse.
  - assert (i = n) as -> by (unfold len in Hn; cbn [length] in Hn; lia).
    cbn [items rows_from]. rewrite append_nil_l. unfold ragged_end.
    destruct (Z.eqb_spec (n mod 16) 0) as [Hz|Hnz]; cbn [negb].
    + rewrite (Hcur Hz). destruct acc; [reflexivity | cbn in Hacc; lia].
    + rewrite <- (append_nil_r LF), lines_from_LF. cbn [lines_from map].
      rewrite <- (append_nil_r cur), Hparse. cbn [parse_hex_bytes].
      rewrite app_nil_r. destruct acc; [cbn in Hacc; lia | reflexivity].
  - assert (len (b :: l) = len l + 1) as Hlen
      by (unfold len; cbn [length]; lia).
    set (stem := indent_of i +:+ value_of b +:+ comma_of n i).
    set (rest := items n (i + 1) l +:+ ragged_end n).
    assert (items n i (b :: l) +:+ ragged_end n =
            stem +:+ line_end_of i +:+ rest) as ->
      by (cbn [items]; unfold item, stem, rest; now rewrite !append_assoc).
    assert (forall t, parse_hex_bytes ((cur +:+ stem) +:+ t) =
                      (acc ++ [b]) ++ parse_hex_bytes t) as Hstem.
    { intros t. unfold stem. rewrite !append_assoc, Hparse.
      rewrite parse_indent, parse_value, parse_comma.
      now rewrite <- app_assoc. }
    rewrite (lines_from_no_LF stem (no_LF_stem n i b)).
    cbn [rows_from]. rewrite length_app. cbn [length].
    unfold line_end_of.
    destruct (Z.eqb_spec (i mod 16) 15) as [Hrow|Hrow].
    + destruct (Nat.eqb_spec (length acc + 1) 16) as [_|Hne]; [| lia].
      rewrite lines_from_LF. cbn [map]. f_equal.
      * rewrite <- (append_nil_r (cur +:+ stem)), Hstem.
        cbn [parse_hex_bytes]. now rewrite app_nil_r.
      * apply (IH (i + 1)); try lia; try reflexivity.
        cbn [length]. euclid.
    + destruct (Nat.eqb_spec (length acc + 1) 16) as [Heq|_]; [lia |].
      change (" " +:+ rest) with (String " " rest).
      rewrite <- (append_nil_l rest), <- append_cons.
      rewrite (lines_from_no_LF " " eq_refl).
      apply (IH (i + 1)); try lia.
      * intros Hz. exfalso. euclid.
      * rewrite length_app. cbn [length]. euclid.
      * intros t. rewrite append_assoc, Hstem.
        rewrite append_cons, append_nil_l. now rewrite parse_skip.
Qed.

(** X4. Rows: read back line by line, the array body gives the input in
    rows of sixteen; line [k] holds the bytes from index [16 k] up to
    [16 k + 15], or up to the last byte on the last line, and there is no
    line [k] once [16 k] reaches the length of the input. *)
Theorem X4_rows_of_sixteen (data : list byte) (k : nat) :
  map parse_hex_bytes (lines (array_body data)) !! k =
  if (16 * k <? length data)%nat then Some (take 16 (drop (16 * k) data))
  else None.
Proof.
  rewrite <- rows_lookup. f_equal.
  unfold lines, rows. rewrite array_body_items.
  apply (lines_rows _ _ 0); try lia; reflexivity.
Qed.

(** ** The width of the lines *)

Lemma lines_width (n : Z) (l : list byte) :
  forall (i : Z) (cur : string),
    0 <= i -> i + len l = n ->
    Z.of_nat (String.length cur) <=
      (if i mod 16 =? 0 then 0 else 4 + 6 * (i mod 16)) ->
    Forall (fun r => (String.length r <= 99)%nat)
           (lines_from cur (items n i l +:+ ragged_end n)).
Proof.
  induction l as [|b l IH]; intros i cur Hi Hn Hcur.
  - cbn [items]. rewrite append_nil_l.
    assert (Z.of_nat (String.length cur) <= 94) as Hw
      by (destruct (i mod 16 =? 0); euclid).
    unfold ragged_end. destruct (negb (n mod 16 =? 0)).
    + rewrite <- (append_nil_r LF), lines_from_LF. cbn [lines_from].
      constructor; [lia | constructor].
    + cbn [lines_from]. destruct cur; constructor; [lia | constructor].
  - assert (len (b :: l) = len l + 1) as Hlen
      by (unfold len; cbn [length]; lia).
    set (stem := indent_of i +:+ value_of b +:+ comma_of n i).
    set (rest := items n (i + 1) l +:+ ragged_end n).
    assert (items n i (b :: l) +:+ ragged_end n =
            stem +:+ line_end_of i +:+ rest) as ->
      by (cbn [items]; unfold item, stem, rest; now rewrite !append_assoc).
    assert (Z.of_nat (String.length (cur +:+ stem)) <=
            4 + 6 * (i mod 16) + 5) as Hstem.
    { unfold stem. rewrite !length_append, value_length.
      unfold indent_of, comma_of.
      destruct (Z.eqb_spec (i mod 16) 0) as [Hz|Hz], (i <? n - 1);
        cbn [String.length]; lia. }
    rewrite (lines_from_no_LF stem (no_LF_stem n i b)).
    unfold line_end_of.
    destruct (Z.eqb_spec (i mod 16) 15) as [Hrow|Hrow].
    + rewrite lines_from_LF. constructor; [lia |].
      apply (IH (i + 1)); try lia.
      destruct (Z.eqb_spec ((i + 1) mod 16) 0) as [_|Hne];
        [reflexivity | exfalso; euclid].
    + change (" " +:+ rest) with (String " " rest).
      rewrite <- (append_nil_l rest), <- append_cons.
      rewrite (lines_from_no_LF " " eq_refl).
      apply (IH (i + 1)); try lia.
      rewrite length_append. cbn [String.length].
      destruct (Z.eqb_spec ((i + 1) mod 16) 0) as [Hz|_];
        [exfalso; euclid |].
      replace ((i + 1) mod 16) with (i mod 16 + 1) by euclid. lia.
Qed.

(** X5. No line of the array body is longer than 99 characters (the
    indentation, sixteen values of four characters, fifteen times a comma and
    a space, and the comma that ends a row which is not the last). *)
Theorem X5_line_width (data : list byte) :
  Forall (fun r => (String.length r <= 99)%nat) (lines (array_body data)).
Proof.
  unfold lines. rewrite array_body_items.
  apply (lines_width _ _ 0); try lia. reflexivity.
Qed.

(** ** The whole header read back *)

Lemma parse_no_zero (s t : string) :
  all_chars (fun c => negb (is_zero_char c)) s = true ->
  parse_hex_bytes (s +:+ t) = parse_hex_bytes t.
Proof.
  induction s as [|c s IH]; intros Hs; [reflexivity |].
  cbn [all_chars] in Hs. apply andb_prop in Hs as [Hc Hs].
  rewrite append_cons, parse_skip; [now apply IH |].
  now apply negb_true_iff in Hc.
Qed.

Lemma is_zero_upper_char (c : ascii) :
  is_zero_char (upper_char c) = is_zero_char c.
Proof. destruct c as [[] [] [] [] [] [] [] []]; reflexivity. Qed.

Lemma is_zero_lower_char (c : ascii) :
  is_zero_char (lower_char c) = is_zero_char c.
Proof. destruct c as [[] [] [] [] [] [] [] []]; reflexivity. Qed.

Lemma no_zero_upper (s : string) :
  all_chars (fun c => negb (is_zero_char c)) (upper s) =
  all_chars (fun c => negb (is_zero_char c)) s.
Proof.
  induction s as [|c s IH]; [reflexivity |].
  cbn [upper map_chars all_chars]. fold (upper s).
  now rewrite is_zero_upper_char, IH.
Qed.

Lemma no_zero_lower (s : string) :
  all_chars (fun c => negb (is_zero_char c)) (lower s) =
  all_chars (fun c => negb (is_zero_char c)) s.
Proof.
  induction s as [|c s IH]; [reflexivity |].
  cbn [lower map_chars all_chars]. fold (lower s).
  now rewrite is_zero_lower_char, IH.
Qed.

Lemma no_zero_prologue (asset_name : string) :
  all_chars (fun c => negb (is_zero_char c)) asset_name = true ->
  all_chars (fun c => negb (is_zero_char c)) (prologue asset_name) = true.
Proof.
  intros Hn. unfold prologue, upper_name, var_name.
  rewrite !all_chars_append, no_zero_upper, no_zero_lower, Hn. reflexivity.
Qed.

Lemma no_zero_epilogue (asset_name : string) :
  all_chars (fun c => negb (is_zero_char c)) asset_name = true ->
  all_chars (fun c => negb (is_zero_char c)) (epilogue asset_name) = true.
Proof.
  intros Hn. unfold epilogue, len_name, var_name.
  rewrite !all_chars_append, no_zero_lower, Hn. reflexivity.
Qed.

(** X6. Round trip over the whole header: when the asset name has no
    character [0], reading the hexadecimal values back out of the complete
    header, guard lines and declarations included, gives the input bytes. *)
Theorem X6_header_round_trip (data : list byte) (asset_name : string) :
  all_chars (fun c => negb (is_zero_char c)) asset_name = true ->
  parse_hex_bytes (emitted data asset_name) = data.
Proof.
  intros Hn.
  rewrite emitted_parts, parse_no_zero by now apply no_zero_prologue.
  rewrite array_body_items, append_assoc, parse_items.
  rewrite parse_no_zero
    by (unfold ragged_end; now destruct (negb (len data mod 16 =? 0))).
  rewrite <- (append_nil_r (epilogue asset_name)).
  rewrite parse_no_zero by now apply no_zero_epilogue.
  apply app_nil_r.
Qed.

Lemma X6_header_round_trip_witness :
  parse_hex_bytes (emitted [x89; x50; x4e; x47] "Logo") =
  [x89; x50; x4e; x47].
Proof.
  apply (X6_header_round_trip [x89; x50; x4e; x47] "Logo"). reflexivity.
Defined.

Lemma parse_array_body (data : list byte) :
  parse_hex_bytes (array_body data) = data.
Proof.
  rewrite array_body_items, parse_items, parse_ragged_end. apply app_nil_r.
Qed.

(** X7. Different inputs never give the same header: under one asset name,
    the headers of two different byte sequences differ, and so do their
    array bodies. *)
Theorem X7_header_injective (d1 d2 : list byte) (asset_name : string) :
  d1 <> d2 ->
  array_body d1 <> array_body d2 /\
  emitted d1 asset_name <> emitted d2 asset_name.
Proof.
  intros Hne.
  assert (array_body d1 <> array_body d2) as Hbody.
  { intros Heq. apply Hne.
    rewrite <- (parse_array_body d1), <- (parse_array_body d2).
    now rewrite Heq. }
  split; [exact Hbody |].
  intros Heq. apply Hbody. rewrite !emitted_parts in Heq.
  apply String.app_inj in Heq.
  now apply append_cancel_r in Heq.
Qed.

Lemma X7_header_injective_witness :
  array_body [x00] <> array_body [x01] /\
  emitted [x00] "x" <> emitted [x01] "x".
Proof. apply (X7_header_injective [x00] [x01] "x"). discriminate. Defined.

(** * Further properties of the names *)

Lemma upper_lower_char (c : ascii) : upper_char (lower_char c) = upper_char c.
Proof. destruct c as [[] [] [] [] [] [] [] []]; reflexivity. Qed.

Lemma upper_lower (s : string) : upper (lower s) = upper s.
Proof.
  induction s as [|c s IH]; [reflexivity |].
  cbn [upper lower map_chars]. fold (upper s) (lower s) (upper (lower s)).
  now rewrite upper_lower_char, IH.
Qed.

Lemma upper_char_not_lower (c : ascii) :
  is_lower_letter (upper_char c) = false.
Proof. destruct c as [[] [] [] [] [] [] [] []]; reflexivity. Qed.

Lemma lower_char_not_upper (c : ascii) :
  is_upper_letter (lower_char c) = false.
Proof. destruct c as [[] [] [] [] [] [] [] []]; reflexivity. Qed.

Lemma upper_no_lower_letter (s : string) :
  all_chars (fun c => negb (is_lower_letter c)) (upper s) = true.
Proof.
  induction s as [|c s IH]; [reflexivity |].
  cbn [upper map_chars all_chars]. fold (upper s).
  now rewrite upper_char_not_lower, IH.
Qed.

Lemma lower_no_upper_letter (s : string) :
  all_chars (fun c => negb (is_upper_letter c)) (lower s) = true.
Proof.
  induction s as [|c s IH]; [reflexivity |].
  cbn [lower map_chars all_chars]. fold (lower s).
  now rewrite lower_char_not_upper, IH.
Qed.

Lemma is_ascii_upper_char (c : ascii) :
  (N_of_ascii (upper_char c) <? 128)%N = (N_of_ascii c <? 128)%N.
Proof. destruct c as [[] [] [] [] [] [] [] []]; reflexivity. Qed.

Lemma is_ascii_lower_char (c : ascii) :
  (N_of_ascii (lower_char c) <? 128)%N = (N_of_ascii c <? 128)%N.
Proof. destruct c as [[] [] [] [] [] [] [] []]; reflexivity. Qed.

Lemma is_ascii_upper (s : string) : is_ascii (upper s) = is_ascii s.
Proof.
  unfold is_ascii. induction s as [|c s IH]; [reflexivity |].
  cbn [upper map_chars all_chars]. fold (upper s).
  now rewrite is_ascii_upper_char, IH.
Qed.

Lemma is_ascii_lower (s : string) : is_ascii (lower s) = is_ascii s.
Proof.
  unfold is_ascii. induction s as [|c s IH]; [reflexivity |].
  cbn [lower map_chars all_chars]. fold (lower s).
  now rewrite is_ascii_lower_char, IH.
Qed.

(** X8. Letter case of an ASCII asset name does not matter: two ASCII
    asset names (on which [upper] and [lower] are [str.upper] and
    [str.lower]) with the same lower-case form give the same header for the
    same input, and that header is ASCII in its names. *)
Theorem X8_names_ignore_case (data : list byte) (n1 n2 : string) :
  is_ascii n1 = true -> is_ascii n2 = true ->
  lower n1 = lower n2 ->
  emitted data n1 = emitted data n2 /\
  is_ascii (upper_name n1) = true /\ is_ascii (var_name n1) = true.
Proof.
  intros Ha1 Ha2 Hlow. split.
  - rewrite !emitted_parts.
    unfold prologue, epilogue, upper_name, var_name, len_name.
    rewrite <- (upper_lower n1), <- (upper_lower n2), Hlow. reflexivity.
  - unfold upper_name, var_name. now rewrite is_ascii_upper, is_ascii_lower.
Qed.

Lemma X8_names_ignore_case_witness :
  emitted [x89; x50] "Sprite" = emitted [x89; x50] "SPRITE" /\
  is_ascii (upper_name "Sprite") = true /\ is_ascii (var_name "Sprite") = true.
Proof.
  apply (X8_names_ignore_case [x89; x50] "Sprite" "SPRITE"); reflexivity.
Defined.

(** X9. For an ASCII asset name, the guard name is ASCII and has no
    lower-case letter, and the names of the array and of the length are ASCII
    and have no upper-case letter. *)
Theorem X9_names_case (asset_name : string) :
  is_ascii asset_name = true ->
  is_ascii (upper_name asset_name +:+ "_H") = true /\
  all_chars (fun c => negb (is_lower_letter c))
            (upper_name asset_name +:+ "_H") = true /\
  is_ascii (var_name asset_name) = true /\
  all_chars (fun c => negb (is_upper_letter c)) (var_name asset_name) = true /\
  is_ascii (len_name asset_name) = true /\
  all_chars (fun c => negb (is_upper_letter c)) (len_name asset_name) = true.
Proof.
  intros Ha.
  pose proof (is_ascii_upper asset_name) as Hu.
  pose proof (is_ascii_lower asset_name) as Hl.
  rewrite Ha in Hu, Hl. unfold is_ascii in *.
  unfold upper_name, var_name, len_name.
  rewrite !all_chars_append, Hu, Hl, upper_no_lower_letter,
    lower_no_upper_letter.
  repeat split.
Qed.

Lemma X9_names_case_witness :
  is_ascii (upper_name "Sprite" +:+ "_H") = true /\
  all_chars (fun c => negb (is_lower_letter c))
            (upper_name "Sprite" +:+ "_H") = true /\
  is_ascii (var_name "Sprite") = true /\
  all_chars (fun c => negb (is_upper_letter c)) (var_name "Sprite") = true /\
  is_ascii (len_name "Sprite") = true /\
  all_chars (fun c => negb (is_upper_letter c)) (len_name "Sprite") = true.
Proof. apply (X9_names_case "Sprite"). reflexivity. Defined.

(** * Further properties of the run *)

(** X10. The [with] block never indexes out of range: on any file, device
    and encoding it ends normally, with [OSError] or with
    [UnicodeEncodeError], never with [IndexError]; it ends normally exactly
    when the header can be encoded and the device has room for its bytes, and
    then the file holds what it held before followed by those bytes; when
    the header cannot be encoded it does not end normally. *)
Theorem X10_block_outcome (data : list byte) (asset_name : string)
    (f : textfile) :
  fst (write_document data asset_name f) <> Raise IndexError /\
  (fst (write_document data asset_name f) = Ok tt <->
     exists bytes,
       encode_text (codec f) (header_text data asset_name) = Some bytes /\
       match room f with
       | None => True
       | Some k => (length bytes <= k)%nat
       end) /\
  (forall bytes,
     encode_text (codec f) (header_text data asset_name) = Some bytes ->
     fst (write_document data asset_name f) = Ok tt ->
     output (snd (write_document data asset_name f)) = output f ++ bytes) /\
  (encode_text (codec f) (header_text data asset_name) = None ->
     fst (write_document data asset_name f) = Raise UnicodeEncodeError \/
     fst (write_document data asset_name f) = Raise OSError).
Proof.
  pose proof (write_document_run data asset_name f) as H.
  destruct (encode_text (codec f) (header_text data asset_name))
    as [bytes|] eqn:He.
  - rewrite H. unfold write. rewrite He.
    destruct (room f) as [k|];
      [destruct (Nat.leb_spec (length bytes) k) |];
      cbn [fst snd output]; repeat split; intros; try discriminate;
      try congruence; eauto;
      try match goal with
        | Hx : exists _, _ |- _ =>
            destruct Hx as (b & Hb & Hk); injection Hb as <-; lia
        end.
  - destruct H as (e & f' & -> & Hne). apply exn_not_IndexError in Hne.
    cbn [fst]. repeat split; intros; try discriminate; try congruence;
      try match goal with
        | Hx : exists _, _ |- _ => destruct Hx as (b & Hb & _); discriminate
        end.
    all: destruct Hne as [-> | ->]; auto.
Qed.

(** A run with three arguments ends with status 0 or in an exception, in a
    world that is the one before, or that with the output file closed. *)
Lemma main_shape (prog png_file h_file asset_name : string) (w : world) :
  exists w1 : world,
    (w1 = w \/ exists f', w1 = close h_file f' w) /\
    (main [prog; png_file; h_file; asset_name] w = (Exit 0, w1) \/
     exists e, main [prog; png_file; h_file; asset_name] w = uncaught e w1).
Proof.
  destruct (read_file_cases w png_file) as [Hr|[data Hr]].
  - exists w. rewrite (main_unreadable _ _ _ _ _ _ Hr). eauto.
  - destruct (device w h_file) as [r|] eqn:Hd.
    + rewrite (main_opened _ _ _ _ _ data r Hr Hd).
      destruct (write_document data asset_name
                  (TextFile [] r (text_encoding w))) as [[[]|e] f'];
        exists (close h_file f' w); (split; [right; now exists f' |]);
        [left; reflexivity | right; exists e; reflexivity].
    + exists w. rewrite (main_unopened _ _ _ _ _ data Hr Hd). eauto.
Qed.



Lemma read_file_close (path h_file : string) (f : textfile) (w : world) :
  resolve w path <> resolve w h_file ->
  read_file (close h_file f w) path = read_file w path.
Proof.
  intros Hne. unfold read_file, close. cbn [files resolve may_read set_files].
  now rewrite lookup_insert_ne by congruence.
Qed.

Lemma close_close (h_file : string) (f g : textfile) (w : world) :
  close h_file g (close h_file f w) = close h_file g w.
Proof.
  unfold close, set_files. cbn. now rewrite insert_insert_eq.
Qed.

(** X12. Running the script again: when the output path does not name the
    input file, a second run with the same arguments ends as the first did
    and leaves the files as the first left them, and standard output as it
    was; after a first run that completed, the whole world is as that run
    left it (after one that failed, the error stream holds a second
    traceback). *)
Theorem X12_rerun (prog png_file h_file asset_name : string) (w : world) :
  resolve w png_file <> resolve w h_file ->
  fst (main [prog; png_file; h_file; asset_name]
            (snd (main [prog; png_file; h_file; asset_name] w))) =
    fst (main [prog; png_file; h_file; asset_name] w) /\
  files (snd (main [prog; png_file; h_file; asset_name]
                   (snd (main [prog; png_file; h_file; asset_name] w)))) =
    files (snd (main [prog; png_file; h_file; asset_name] w)) /\
  stdout (snd (main [prog; png_file; h_file; asset_name]
                    (snd (main [prog; png_file; h_file; asset_name] w)))) =
    stdout w /\
  (fst (main [prog; png_file; h_file; asset_name] w) = Exit 0 ->
   main [prog; png_file; h_file; asset_name]
        (snd (main [prog; png_file; h_file; asset_name] w)) =
   main [prog; png_file; h_file; asset_name] w).
Proof.
  intros Hne.
  destruct (read_file_cases w png_file) as [Hr|[data Hr]].
  - rewrite (main_unreadable _ _ _ _ _ _ Hr). cbn [snd uncaught].
    rewrite (main_unreadable prog png_file h_file asset_name
               (set_stderr _ w) OSError Hr).
    repeat split. intros H. discriminate.
  - destruct (device w h_file) as [r|] eqn:Hd.
    + rewrite (main_opened _ _ _ _ _ data r Hr Hd).
      destruct (write_document data asset_name
                  (TextFile [] r (text_encoding w))) as [[[]|e] f'] eqn:Hwd.
      * cbn [snd fst].
        rewrite (main_opened prog png_file h_file asset_name
                   (close h_file f' w) data r);
          [| now rewrite read_file_close | exact Hd].
        change (text_encoding (close h_file f' w)) with (text_encoding w).
        rewrite Hwd, close_close. repeat split.
      * cbn [snd fst uncaught].
        rewrite (main_opened prog png_file h_file asset_name
                   (set_stderr _ (close h_file f' w)) data r);
          [| exact (eq_trans (read_file_close _ _ _ _ Hne) Hr) | exact Hd].
        change (text_encoding (set_stderr _ (close h_file f' w)))
          with (text_encoding w).
        rewrite Hwd. cbn [fst snd uncaught].
        repeat split.
        -- cbn [files set_stderr close set_files resolve].
           now rewrite insert_insert_eq.
        -- intros H. discriminate.
    + rewrite (main_unopened _ _ _ _ _ data Hr Hd). cbn [snd uncaught].
      rewrite (main_unopened prog png_file h_file asset_name
                 (set_stderr _ w) data Hr Hd).
      repeat split. intros H. discriminate.
Qed.

Lemma X12_rerun_witness :
  fst (main ["png_to_c.py"; "logo.png"; "logo.h"; "Logo"]
         (snd (main ["png_to_c.py"; "logo.png"; "logo.h"; "Logo"] world_a))) =
    fst (main ["png_to_c.py"; "logo.png"; "logo.h"; "Logo"] world_a) /\
  files (snd (main ["png_to_c.py"; "logo.png"; "logo.h"; "Logo"]
            (snd (main ["png_to_c.py"; "logo.png"; "logo.h"; "Logo"]
                       world_a)))) =
    files (snd (main ["png_to_c.py"; "logo.png"; "logo.h"; "Logo"] world_a)).
Proof.
  destruct (X12_rerun "png_to_c.py" "logo.png" "logo.h" "Logo" world_a)
    as (Ho & Hf & _); [discriminate |].
  split; [exact Ho | exact Hf].
Defined.

Lemma main_outcome (prog png_file h_file asset_name : string) (w : world) :
  fst (main [prog; png_file; h_file; asset_name] w) = Exit 0 \/
  exists e, fst (main [prog; png_file; h_file; asset_name] w) = Uncaught e.
Proof.
  destruct (main_shape prog png_file h_file asset_name w)
    as (w1 & _ & [-> | [e ->]]); [now left | right; now exists e].
Qed.

(** X13. Exit status 0 means a complete header: whatever the arguments and
    the world, a run that reports status 0 had three arguments, read the
    input file, and left in the file the output path names the whole header
    of the bytes read, in the text encoding of the platform. *)
Theorem X13_status_zero (argv : list string) (w : world) :
  exit_status (fst (main argv w)) = 0 ->
  exists (prog png_file h_file asset_name : string) (data bytes : list byte),
    argv = [prog; png_file; h_file; asset_name] /\
    read_file w png_file = Ok data /\
    emitted data asset_name = header_text data asset_name /\
    encode_text (text_encoding w) (emitted data asset_name) = Some bytes /\
    files (snd (main argv w)) !! resolve w h_file = Some bytes.
Proof.
  intros Hst.
  destruct (Nat.eq_dec (length argv) 4%nat) as [Hlen|Hlen].
  - destruct argv as [|prog [|png_file [|h_file [|asset_name [|? ?]]]]];
      try discriminate.
    exists prog, png_file, h_file, asset_name.
    destruct (main_outcome prog png_file h_file asset_name w) as [Ho|[e Ho]];
      [| rewrite Ho in Hst; discriminate].
    destruct (read_file_cases w png_file) as [Hr|[data Hr]].
    + rewrite (main_unreadable _ _ _ _ _ _ Hr) in Ho. discriminate.
    + destruct (main_exit_0 _ _ _ _ _ _ Hr Ho) as (bytes & He & Hf).
      exists data, bytes. rewrite emitted_header_text. auto.
  - exfalso. unfold main in Hst.
    destruct (Z.eqb_spec (Z.of_nat (length argv)) 4) as [Heq|_]; [lia |].
    discriminate.
Qed.

Lemma X13_status_zero_witness :
  exists (prog png_file h_file asset_name : string) (data bytes : list byte),
    ["png_to_c.py"; "logo.png"; "logo.h"; "Logo"] =
      [prog; png_file; h_file; asset_name] /\
    read_file world_a png_file = Ok data /\
    emitted data asset_name = header_text data asset_name /\
    encode_text (text_encoding world_a) (emitted data asset_name)
      = Some bytes /\
    files (snd (main ["png_to_c.py"; "logo.png"; "logo.h"; "Logo"] world_a))
      !! resolve world_a h_file = Some bytes.
Proof.
  apply (X13_status_zero ["png_to_c.py"; "logo.png"; "logo.h"; "Logo"]
           world_a).
  vm_compute. reflexivity.
Defined.
